(** * MDOF-Ontology: Device, Command and Mode state machines

    A shallow embedding of [src/mode.py], [src/command.py] and
    [src/device.py], followed by the properties of the three classes.

    Conventions of the embedding.
    - A Python object is a record; a method is a function from the object
      before the call to the returned value, the object after the call and
      the effects the call emitted, in program order.
    - Dictionaries that the code only looks up by key ([state_variables],
      [transitions], [parameter_types], [parameter_ranges]) are [gmap]s;
      dictionaries that the code iterates ([params], a transition's
      [conditions]) are association lists in insertion order, which is the
      order in which Python iterates a [dict].
    - Observers are opaque subscribers: a notification is recorded as an
      effect together with a snapshot of the emitting object; a callback
      neither raises nor mutates the emitter. Where a statement is about
      callbacks that do, it uses [connect_with] (callbacks that raise) or
      [notify_observers_live] (callbacks that call back into the subject,
      with the loop reading the live list).
    - Every reading of [time.time()] is an argument of the method that
      makes it, so that every statement holds for every clock.
    - The places marked "logic would go here" in the source are calls to a
      transport that is not part of the repository; the outcome of such a
      call (completion, or an exception with its text) is an argument. *)

From Stdlib Require Import QArith.
From stdpp Require Import gmap strings list fin_maps.


(** ** Python values *)

(** The values that [params], [state_variables] and guard conditions hold.
    A finite [float] is represented by the rational number it denotes. *)
Inductive value :=
  | VNone
  | VBool (b : bool)
  | VInt (n : Z)
  | VFloat (x : Q)
  | VStr (s : string).

Inductive pytype := TBool | TInt | TFloat | TStr | TNoneType.

(** An association list in insertion order, standing for a [dict] that the
    code iterates. *)
Definition dict := list (string * value).

(** A reading of [time.time()]. *)
Definition pytime := Q.
Definition observer := nat.

(** What a Python call does: it returns, or raises. The only exception the
    modelled code can raise by itself is the [TypeError] of an ordering
    comparison between unordered types. *)
Inductive exception := TypeError.

Inductive result (A : Type) :=
  | Returned (a : A)
  | Raised (e : exception).
Arguments Returned {A} a.
Arguments Raised {A} e.

(** The outcome of a call into the transport. *)
Inductive outcome :=
  | Done
  | Fault (e : string).

(** [bool] is a subclass of [int]; the three numeric types compare and
    test equal by numeric value. *)
Definition as_number (v : value) : option Q :=
  match v with
  | VBool b => Some (if b then 1%Q else 0%Q)
  | VInt n => Some (inject_Z n)
  | VFloat x => Some x
  | VNone | VStr _ => None
  end.

(** [a == b] *)
Definition py_eqb (a b : value) : bool :=
  match as_number a, as_number b with
  | Some x, Some y => Qeq_bool x y
  | None, None =>
      match a, b with
      | VNone, VNone => true
      | VStr s, VStr t => String.eqb s t
      | _, _ => false
      end
  | _, _ => false
  end.

(** [a <= b] *)
Definition py_le (a b : value) : result bool :=
  match as_number a, as_number b with
  | Some x, Some y => Returned (Qle_bool x y)
  | None, None =>
      match a, b with
      | VStr s, VStr t => Returned (String.leb s t)
      | _, _ => Raised TypeError
      end
  | _, _ => Raised TypeError
  end.

(** [isinstance(v, T)] *)
Definition isinstance (v : value) (T : pytype) : bool :=
  match v, T with
  | VNone, TNoneType => true
  | VBool _, TBool => true
  | VBool _, TInt => true
  | VInt _, TInt => true
  | VFloat _, TFloat => true
  | VStr _, TStr => true
  | _, _ => false
  end.

(** [x in l] for a list of strings, [k in d] for a dictionary. *)
Definition mem (x : string) (l : list string) : bool :=
  existsb (String.eqb x) l.

Definition has_key (k : string) (d : dict) : bool := mem k (map fst d).

(** [l.remove(x)]: drops the first occurrence of [x]. The code calls it
    only under the guard [x in l]. *)
Fixpoint list_remove (x : string) (l : list string) : list string :=
  match l with
  | [] => []
  | y :: l' => if String.eqb y x then l' else y :: list_remove x l'
  end.

(** ** The notification loop *)

(** [for observer in self._observers: observer.on_...(self, ...)] as Python
    runs it: the loop reads the live list at the next position each time,
    so a callback that subscribes or unsubscribes changes what the loop
    visits afterwards. [call o s] is the subject after the callback of the
    observer [o] has run on the subject [s]. The loop returns the subject
    after the round and the observers it has called, in order. A round
    need not end when callbacks keep subscribing: [fuel] bounds the number
    of steps, and a round that needs more returns [None]. *)
Section NotificationLoop.

Context {T : Type}.
Variable observers : T → list observer.
Variable call : observer → T → T.

Fixpoint notification_loop (fuel position : nat) (s : T)
  : option (T * list observer) :=
  match fuel with
  | O => None
  | S fuel' =>
      match observers s !! position with
      | None => Some (s, [])
      | Some o =>
          match notification_loop fuel' (S position) (call o s) with
          | Some (s', called) => Some (s', o :: called)
          | None => None
          end
      end
  end.

End NotificationLoop.

(** ** src/mode.py *)

Module Mode.

Record Transition := {
  to_state : string;
  conditions : dict
}.

Record HistoryEntry := {
  h_from_state : string;
  h_to_state : string;
  h_timestamp : pytime
}.

Record Mode := {
  mode_id : string;
  name : string;
  description : string;
  allowed_commands : list string;
  required_commands : list string;
  state_variables : gmap string value;
  transitions : gmap string (list Transition);
  current_state : string;
  _observers : list observer;
  _history : list HistoryEntry
}.

(** The messages are f-strings; a constructor stands for the literal text
    and carries the interpolated values. *)
Inductive Message :=
  | NoTransitionsFrom (state : string)
    (* "No transitions defined from state: {current_state}" *)
  | ConditionNotMet (condition : string) (v : value)
    (* "Condition not met: {condition} = {value}" *)
  | TransitionAllowed
    (* "Transition allowed" *)
  | NoTransitionTo (state : string).
    (* "No transition defined to state: {to_state}" *)

(** The [data] argument of [notify_observers]. *)
Inductive Data :=
  | MessageData (message : Message)
  | StateChange (from_state to_state : string)
  | VariableChange (name : string) (v : value).

(** One call of [observer.on_mode_state_changed(self, event, data)]. *)
Record Notification := {
  n_observer : observer;
  n_mode : Mode;
  n_event : string;
  n_data : Data
}.

Definition init (mode_id name description : string) : Mode :=
  {| mode_id := mode_id; name := name; description := description;
     allowed_commands := []; required_commands := [];
     state_variables := ∅; transitions := ∅;
     current_state := "initial"; _observers := []; _history := [] |}.

Definition set_allowed_commands (l : list string) (m : Mode) : Mode :=
  {| mode_id := mode_id m; name := name m; description := description m;
     allowed_commands := l; required_commands := required_commands m;
     state_variables := state_variables m; transitions := transitions m;
     current_state := current_state m; _observers := _observers m;
     _history := _history m |}.

Definition set_required_commands (l : list string) (m : Mode) : Mode :=
  {| mode_id := mode_id m; name := name m; description := description m;
     allowed_commands := allowed_commands m; required_commands := l;
     state_variables := state_variables m; transitions := transitions m;
     current_state := current_state m; _observers := _observers m;
     _history := _history m |}.

Definition set_state_variables (vars : gmap string value) (m : Mode) : Mode :=
  {| mode_id := mode_id m; name := name m; description := description m;
     allowed_commands := allowed_commands m;
     required_commands := required_commands m;
     state_variables := vars; transitions := transitions m;
     current_state := current_state m; _observers := _observers m;
     _history := _history m |}.

Definition set_transitions (ts : gmap string (list Transition)) (m : Mode) : Mode :=
  {| mode_id := mode_id m; name := name m; description := description m;
     allowed_commands := allowed_commands m;
     required_commands := required_commands m;
     state_variables := state_variables m; transitions := ts;
     current_state := current_state m; _observers := _observers m;
     _history := _history m |}.

Definition set_current_state (s : string) (m : Mode) : Mode :=
  {| mode_id := mode_id m; name := name m; description := description m;
     allowed_commands := allowed_commands m;
     required_commands := required_commands m;
     state_variables := state_variables m; transitions := transitions m;
     current_state := s; _observers := _observers m;
     _history := _history m |}.

Definition set_observers (os : list observer) (m : Mode) : Mode :=
  {| mode_id := mode_id m; name := name m; description := description m;
     allowed_commands := allowed_commands m;
     required_commands := required_commands m;
     state_variables := state_variables m; transitions := transitions m;
     current_state := current_state m; _observers := os;
     _history := _history m |}.

Definition set_history (h : list HistoryEntry) (m : Mode) : Mode :=
  {| mode_id := mode_id m; name := name m; description := description m;
     allowed_commands := allowed_commands m;
     required_commands := required_commands m;
     state_variables := state_variables m; transitions := transitions m;
     current_state := current_state m; _observers := _observers m;
     _history := h |}.

Definition add_observer (o : observer) (m : Mode) : Mode :=
  if bool_decide (o ∈ _observers m) then m
  else set_observers (_observers m ++ [o]) m.

Fixpoint remove_first (o : observer) (l : list observer) : list observer :=
  match l with
  | [] => []
  | y :: l' => if bool_decide (y = o) then l' else y :: remove_first o l'
  end.

Definition remove_observer (o : observer) (m : Mode) : Mode :=
  if bool_decide (o ∈ _observers m)
  then set_observers (remove_first o (_observers m)) m
  else m.

(** The observers are called in subscription order with the mode as it is
    at the time of the call. *)
Definition notify_observers (m : Mode) (event : string) (data : Data)
  : list Notification :=
  map (fun o => {| n_observer := o; n_mode := m;
                   n_event := event; n_data := data |}) (_observers m).

Definition add_command (command_id : string) (required : bool) (m : Mode) : Mode :=
  if mem command_id (allowed_commands m) then m
  else
    let m1 := set_allowed_commands (allowed_commands m ++ [command_id]) m in
    if required
    then set_required_commands (required_commands m1 ++ [command_id]) m1
    else m1.

Definition remove_command (command_id : string) (m : Mode) : Mode :=
  let m1 :=
    if mem command_id (allowed_commands m)
    then set_allowed_commands (list_remove command_id (allowed_commands m)) m
    else m in
  if mem command_id (required_commands m1)
  then set_required_commands (list_remove command_id (required_commands m1)) m1
  else m1.

Definition is_command_allowed (command_id : string) (m : Mode) : bool :=
  mem command_id (allowed_commands m).

(** [conditions or {}] *)
Definition or_empty (conditions : option dict) : dict :=
  match conditions with
  | Some ((_ :: _) as c) => c
  | _ => []
  end.

Definition add_transition (from_state to_state : string)
    (conditions : option dict) (m : Mode) : Mode :=
  let ts :=
    match transitions m !! from_state with
    | None => <[from_state := []]> (transitions m)
    | Some _ => transitions m
    end in
  let candidates := default [] (ts !! from_state) in
  set_transitions
    (<[from_state := candidates ++
         [{| to_state := to_state; conditions := or_empty conditions |}]]> ts)
    m.

(** The inner loop of [can_transition_to], over the items of one
    candidate's [conditions]. *)
Fixpoint check_conditions (vars : gmap string value) (conds : dict)
  : bool * Message :=
  match conds with
  | [] => (true, TransitionAllowed)
  | (condition, v) :: rest =>
      match vars !! condition with
      | Some current =>
          if negb (py_eqb current v)
          then (false, ConditionNotMet condition v)
          else check_conditions vars rest
      | None => check_conditions vars rest
      end
  end.

(** The outer loop of [can_transition_to], over the candidates declared
    from the current state. *)
Fixpoint scan_transitions (vars : gmap string value) (target : string)
    (candidates : list Transition) : bool * Message :=
  match candidates with
  | [] => (false, NoTransitionTo target)
  | transition :: rest =>
      if String.eqb (to_state transition) target
      then check_conditions vars (conditions transition)
      else scan_transitions vars target rest
  end.

Definition can_transition_to (target : string) (m : Mode) : bool * Message :=
  match transitions m !! current_state m with
  | None => (false, NoTransitionsFrom (current_state m))
  | Some candidates => scan_transitions (state_variables m) target candidates
  end.

Definition transition_to (now : pytime) (target : string) (m : Mode)
  : bool * Mode * list Notification :=
  let '(can_transition, message) := can_transition_to target m in
  if negb can_transition
  then (false, m, notify_observers m "transition_failed" (MessageData message))
  else
    let m1 :=
      set_history
        (_history m ++ [{| h_from_state := current_state m;
                           h_to_state := target;
                           h_timestamp := now |}]) m in
    let m2 := set_current_state target m1 in
    (true, m2,
     notify_observers m2 "state_changed" (StateChange (current_state m2) target)).

Definition set_state_variable (name : string) (v : value) (m : Mode)
  : Mode * list Notification :=
  let m1 := set_state_variables (<[name := v]> (state_variables m)) m in
  (m1, notify_observers m1 "variable_changed" (VariableChange name v)).

Definition get_state_variable (name : string) (m : Mode) : option value :=
  state_variables m !! name.

Definition get_transition_history (m : Mode) : list HistoryEntry := _history m.

(** A sequence of [add_command] and [remove_command] calls. *)
Inductive call :=
  | AddCommand (command_id : string) (required : bool)
  | RemoveCommand (command_id : string).

Definition step (m : Mode) (c : call) : Mode :=
  match c with
  | AddCommand command_id required => add_command command_id required m
  | RemoveCommand command_id => remove_command command_id m
  end.

Definition run (calls : list call) (m : Mode) : Mode := fold_left step calls m.

(** The dictionary that [get_current_state_info] returns. *)
Record StateInfo := {
  i_mode_id : string;
  i_name : string;
  i_current_state : string;
  i_state_variables : gmap string value;
  i_allowed_commands : list string;
  i_required_commands : list string
}.

Definition get_current_state_info (m : Mode) : StateInfo :=
  {| i_mode_id := mode_id m; i_name := name m;
     i_current_state := current_state m;
     i_state_variables := state_variables m;
     i_allowed_commands := allowed_commands m;
     i_required_commands := required_commands m |}.

(** A call of one of the methods that change a mode, with its arguments
    and, for [transition_to], the reading of the clock. *)
Inductive method :=
  | CallAddObserver (o : observer)
  | CallRemoveObserver (o : observer)
  | CallAddCommand (command_id : string) (required : bool)
  | CallRemoveCommand (command_id : string)
  | CallAddTransition (from_state to_state : string) (conditions : option dict)
  | CallTransitionTo (now : pytime) (target : string)
  | CallSetStateVariable (name : string) (v : value).

Definition invoke (c : method) (m : Mode) : Mode * list Notification :=
  match c with
  | CallAddObserver o => (add_observer o m, [])
  | CallRemoveObserver o => (remove_observer o m, [])
  | CallAddCommand command_id required => (add_command command_id required m, [])
  | CallRemoveCommand command_id => (remove_command command_id m, [])
  | CallAddTransition from_state to_state conditions =>
      (add_transition from_state to_state conditions m, [])
  | CallTransitionTo now target =>
      let '(_, m', notes) := transition_to now target m in (m', notes)
  | CallSetStateVariable name v => set_state_variable name v m
  end.

Fixpoint invoke_all (calls : list method) (m : Mode) : Mode * list Notification :=
  match calls with
  | [] => (m, [])
  | c :: rest =>
      let '(m1, notes) := invoke c m in
      let '(m2, notes') := invoke_all rest m1 in
      (m2, notes ++ notes')
  end.

(** [notify_observers] with callbacks that may call back into the mode:
    [callback o m event data] is the mode after the
    [on_mode_state_changed] of the observer [o] has run. *)
Definition notify_observers_live
    (callback : observer → Mode → string → Data → Mode)
    (event : string) (data : Data) (fuel : nat) (m : Mode)
  : option (Mode * list observer) :=
  notification_loop _observers (λ o m', callback o m' event data) fuel 0 m.

End Mode.

(** ** src/device.py *)

Module Device.

(** An entry of [command_history]. *)
Record CommandRecord := {
  command : string;
  params : option dict;
  timestamp : pytime
}.

Record Device := {
  device_id : string;
  device_type : string;
  name : string;
  ip_address : string;
  port : Z;
  is_connected : bool;
  current_mode : option string;
  available_modes : list string;
  command_history : list CommandRecord;
  last_command_time : option pytime;
  status : string;
  error_count : Z;
  last_error : option string;
  connection_attempts : Z;
  max_connection_attempts : Z;
  reconnect_delay : Z;
  last_heartbeat : option pytime;
  heartbeat_interval : Z;
  _observers : list observer
}.

(** What a method does besides changing the device, in program order: a
    call into the transport at the place the source reserves for it, or
    one call of [observer.on_device_state_changed(self)], recorded with the
    device as it is at the time of the call. *)
Inductive Effect :=
  | TransportConnect (ip_address : string) (port : Z)
  | TransportSend (command : string) (params : option dict)
  | Notified (o : observer) (snapshot : Device).

Definition init (device_id device_type name ip_address : string) (port : Z)
  : Device :=
  {| device_id := device_id; device_type := device_type; name := name;
     ip_address := ip_address; port := port; is_connected := false;
     current_mode := None; available_modes := []; command_history := [];
     last_command_time := None; status := "disconnected"; error_count := 0;
     last_error := None; connection_attempts := 0;
     max_connection_attempts := 3; reconnect_delay := 5;
     last_heartbeat := None; heartbeat_interval := 30; _observers := [] |}.

Definition set_is_connected (x : bool) (d : Device) : Device :=
  {| device_id := device_id d; device_type := device_type d; name := name d;
     ip_address := ip_address d; port := port d; is_connected := x;
     current_mode := current_mode d; available_modes := available_modes d;
     command_history := command_history d;
     last_command_time := last_command_time d; status := status d;
     error_count := error_count d; last_error := last_error d;
     connection_attempts := connection_attempts d;
     max_connection_attempts := max_connection_attempts d;
     reconnect_delay := reconnect_delay d;
     last_heartbeat := last_heartbeat d;
     heartbeat_interval := heartbeat_interval d;
     _observers := _observers d |}.

Definition set_current_mode (x : option string) (d : Device) : Device :=
  {| device_id := device_id d; device_type := device_type d; name := name d;
     ip_address := ip_address d; port := port d;
     is_connected := is_connected d; current_mode := x;
     available_modes := available_modes d;
     command_history := command_history d;
     last_command_time := last_command_time d; status := status d;
     error_count := error_count d; last_error := last_error d;
     connection_attempts := connection_attempts d;
     max_connection_attempts := max_connection_attempts d;
     reconnect_delay := reconnect_delay d;
     last_heartbeat := last_heartbeat d;
     heartbeat_interval := heartbeat_interval d;
     _observers := _observers d |}.

Definition set_command_history (x : list CommandRecord) (d : Device) : Device :=
  {| device_id := device_id d; device_type := device_type d; name := name d;
     ip_address := ip_address d; port := port d;
     is_connected := is_connected d; current_mode := current_mode d;
     available_modes := available_modes d; command_history := x;
     last_command_time := last_command_time d; status := status d;
     error_count := error_count d; last_error := last_error d;
     connection_attempts := connection_attempts d;
     max_connection_attempts := max_connection_attempts d;
     reconnect_delay := reconnect_delay d;
     last_heartbeat := last_heartbeat d;
     heartbeat_interval := heartbeat_interval d;
     _observers := _observers d |}.

Definition set_last_command_time (x : option pytime) (d : Device) : Device :=
  {| device_id := device_id d; device_type := device_type d; name := name d;
     ip_address := ip_address d; port := port d;
     is_connected := is_connected d; current_mode := current_mode d;
     available_modes := available_modes d;
     command_history := command_history d; last_command_time := x;
     status := status d; error_count := error_count d;
     last_error := last_error d;
     connection_attempts := connection_attempts d;
     max_connection_attempts := max_connection_attempts d;
     reconnect_delay := reconnect_delay d;
     last_heartbeat := last_heartbeat d;
     heartbeat_interval := heartbeat_interval d;
     _observers := _observers d |}.

Definition set_status (x : string) (d : Device) : Device :=
  {| device_id := device_id d; device_type := device_type d; name := name d;
     ip_address := ip_address d; port := port d;
     is_connected := is_connected d; current_mode := current_mode d;
     available_modes := available_modes d;
     command_history := command_history d;
     last_command_time := last_command_time d; status := x;
     error_count := error_count d; last_error := last_error d;
     connection_attempts := connection_attempts d;
     max_connection_attempts := max_connection_attempts d;
     reconnect_delay := reconnect_delay d;
     last_heartbeat := last_heartbeat d;
     heartbeat_interval := heartbeat_interval d;
     _observers := _observers d |}.

Definition set_error_count (x : Z) (d : Device) : Device :=
  {| device_id := device_id d; device_type := device_type d; name := name d;
     ip_address := ip_address d; port := port d;
     is_connected := is_connected d; current_mode := current_mode d;
     available_modes := available_modes d;
     command_history := command_history d;
     last_command_time := last_command_time d; status := status d;
     error_count := x; last_error := last_error d;
     connection_attempts := connection_attempts d;
     max_connection_attempts := max_connection_attempts d;
     reconnect_delay := reconnect_delay d;
     last_heartbeat := last_heartbeat d;
     heartbeat_interval := heartbeat_interval d;
     _observers := _observers d |}.

Definition set_last_error (x : option string) (d : Device) : Device :=
  {| device_id := device_id d; device_type := device_type d; name := name d;
     ip_address := ip_address d; port := port d;
     is_connected := is_connected d; current_mode := current_mode d;
     available_modes := available_modes d;
     command_history := command_history d;
     last_command_time := last_command_time d; status := status d;
     error_count := error_count d; last_error := x;
     connection_attempts := connection_attempts d;
     max_connection_attempts := max_connection_attempts d;
     reconnect_delay := reconnect_delay d;
     last_heartbeat := last_heartbeat d;
     heartbeat_interval := heartbeat_interval d;
     _observers := _observers d |}.

Definition set_connection_attempts (x : Z) (d : Device) : Device :=
  {| device_id := device_id d; device_type := device_type d; name := name d;
     ip_address := ip_address d; port := port d;
     is_connected := is_connected d; current_mode := current_mode d;
     available_modes := available_modes d;
     command_history := command_history d;
     last_command_time := last_command_time d; status := status d;
     error_count := error_count d; last_error := last_error d;
     connection_attempts := x;
     max_connection_attempts := max_connection_attempts d;
     reconnect_delay := reconnect_delay d;
     last_heartbeat := last_heartbeat d;
     heartbeat_interval := heartbeat_interval d;
     _observers := _observers d |}.

Definition set_last_heartbeat (x : option pytime) (d : Device) : Device :=
  {| device_id := device_id d; device_type := device_type d; name := name d;
     ip_address := ip_address d; port := port d;
     is_connected := is_connected d; current_mode := current_mode d;
     available_modes := available_modes d;
     command_history := command_history d;
     last_command_time := last_command_time d; status := status d;
     error_count := error_count d; last_error := last_error d;
     connection_attempts := connection_attempts d;
     max_connection_attempts := max_connection_attempts d;
     reconnect_delay := reconnect_delay d; last_heartbeat := x;
     heartbeat_interval := heartbeat_interval d;
     _observers := _observers d |}.

Definition set_observers (x : list observer) (d : Device) : Device :=
  {| device_id := device_id d; device_type := device_type d; name := name d;
     ip_address := ip_address d; port := port d;
     is_connected := is_connected d; current_mode := current_mode d;
     available_modes := available_modes d;
     command_history := command_history d;
     last_command_time := last_command_time d; status := status d;
     error_count := error_count d; last_error := last_error d;
     connection_attempts := connection_attempts d;
     max_connection_attempts := max_connection_attempts d;
     reconnect_delay := reconnect_delay d;
     last_heartbeat := last_heartbeat d;
     heartbeat_interval := heartbeat_interval d; _observers := x |}.

Definition notify_observers (d : Device) : list Effect :=
  map (fun o => Notified o d) (_observers d).

Definition connect (transport : outcome) (now : pytime) (d : Device)
  : bool * Device * list Effect :=
  if (max_connection_attempts d <=? connection_attempts d)%Z then
    let d1 := set_status "connection_failed" d in
    (false, d1, notify_observers d1)
  else
    match transport with
    | Done =>
        let d1 := set_is_connected true d in
        let d2 := set_status "connected" d1 in
        let d3 := set_connection_attempts 0 d2 in
        let d4 := set_last_heartbeat (Some now) d3 in
        (true, d4, TransportConnect (ip_address d) (port d) :: notify_observers d4)
    | Fault e =>
        let d1 := set_connection_attempts (connection_attempts d + 1) d in
        let d2 := set_last_error (Some e) d1 in
        let d3 := set_status "connection_error" d2 in
        (false, d3, TransportConnect (ip_address d) (port d) :: notify_observers d3)
    end.

Definition disconnect (d : Device) : Device * list Effect :=
  let d1 := set_is_connected false d in
  let d2 := set_status "disconnected" d1 in
  let d3 := set_current_mode None d2 in
  (d3, notify_observers d3).

(** [now1] and [now2] are the two readings of the clock, for the history
    entry and for [last_command_time]. *)
Definition send_command (transport : outcome) (now1 now2 : pytime)
    (command : string) (params : option dict) (d : Device)
  : bool * Device * list Effect :=
  if negb (is_connected d) then
    let d1 := set_status "not_connected" d in
    (false, d1, notify_observers d1)
  else
    match transport with
    | Done =>
        let d1 :=
          set_command_history
            (command_history d ++
               [{| command := command; params := params; timestamp := now1 |}]) d in
        let d2 := set_last_command_time (Some now2) d1 in
        let d3 := set_status "command_sent" d2 in
        (true, d3, TransportSend command params :: notify_observers d3)
    | Fault e =>
        let d1 := set_error_count (error_count d + 1) d in
        let d2 := set_last_error (Some e) d1 in
        let d3 := set_status "command_error" d2 in
        (false, d3, TransportSend command params :: notify_observers d3)
    end.

Definition set_mode (mode : string) (d : Device) : bool * Device * list Effect :=
  if negb (mem mode (available_modes d)) then
    let d1 := set_status "invalid_mode" d in
    (false, d1, notify_observers d1)
  else
    let d1 := set_current_mode (Some mode) d in
    let d2 := set_status "mode_changed" d1 in
    (true, d2, notify_observers d2).

(** [connect()] called once per element of [outcomes], each call with its
    own transport outcome and clock reading. *)
Fixpoint connect_each (outcomes : list (outcome * pytime)) (d : Device)
  : Device * list Effect :=
  match outcomes with
  | [] => (d, [])
  | (transport, now) :: rest =>
      let '(_, d1, effects) := connect transport now d in
      let '(d2, effects') := connect_each rest d1 in
      (d2, effects ++ effects')
  end.

Definition add_observer (o : observer) (d : Device) : Device :=
  if bool_decide (o ∈ _observers d) then d
  else set_observers (_observers d ++ [o]) d.

Definition remove_observer (o : observer) (d : Device) : Device :=
  if bool_decide (o ∈ _observers d)
  then set_observers (Mode.remove_first o (_observers d)) d
  else d.

Definition update_heartbeat (now : pytime) (d : Device) : Device * list Effect :=
  let d1 := set_last_heartbeat (Some now) d in
  let d2 := set_status "connected" d1 in
  (d2, notify_observers d2).

(** [time.time() - self.last_heartbeat] raises [TypeError] when
    [last_heartbeat] is still [None]. *)
Definition check_connection (now : pytime) (d : Device)
  : result (bool * Device * list Effect) :=
  if negb (is_connected d) then Returned (false, d, [])
  else
    match last_heartbeat d with
    | None => Raised TypeError
    | Some last =>
        if negb (Qle_bool (now - last) (inject_Z (heartbeat_interval d))) then
          let d1 := set_status "connection_lost" d in
          let d2 := set_is_connected false d1 in
          Returned (false, d2, notify_observers d2)
        else Returned (true, d, [])
    end.

(** The dictionary that [get_status_summary] returns. *)
Record StatusSummary := {
  s_device_id : string;
  s_name : string;
  s_type : string;
  s_status : string;
  s_is_connected : bool;
  s_current_mode : option string;
  s_error_count : Z;
  s_last_error : option string;
  s_last_heartbeat : option pytime;
  s_connection_attempts : Z
}.

Definition get_status_summary (d : Device) : StatusSummary :=
  {| s_device_id := device_id d; s_name := name d; s_type := device_type d;
     s_status := status d; s_is_connected := is_connected d;
     s_current_mode := current_mode d; s_error_count := error_count d;
     s_last_error := last_error d; s_last_heartbeat := last_heartbeat d;
     s_connection_attempts := connection_attempts d |}.

(** A call of one of the methods that change a device, with its arguments,
    the outcome of the transport and the readings of the clock. *)
Inductive method :=
  | CallAddObserver (o : observer)
  | CallRemoveObserver (o : observer)
  | CallConnect (transport : outcome) (now : pytime)
  | CallDisconnect
  | CallSendCommand (transport : outcome) (now1 now2 : pytime)
      (command : string) (params : option dict)
  | CallSetMode (mode : string)
  | CallUpdateHeartbeat (now : pytime)
  | CallCheckConnection (now : pytime).

(** What the call returns, for the methods that return a boolean. *)
Definition invoke (c : method) (d : Device)
  : result (option bool * Device * list Effect) :=
  match c with
  | CallAddObserver o => Returned (None, add_observer o d, [])
  | CallRemoveObserver o => Returned (None, remove_observer o d, [])
  | CallConnect transport now =>
      let '(ok, d', effects) := connect transport now d in
      Returned (Some ok, d', effects)
  | CallDisconnect =>
      let '(d', effects) := disconnect d in Returned (None, d', effects)
  | CallSendCommand transport now1 now2 command params =>
      let '(ok, d', effects) := send_command transport now1 now2 command params d in
      Returned (Some ok, d', effects)
  | CallSetMode mode =>
      let '(ok, d', effects) := set_mode mode d in
      Returned (Some ok, d', effects)
  | CallUpdateHeartbeat now =>
      let '(d', effects) := update_heartbeat now d in Returned (None, d', effects)
  | CallCheckConnection now =>
      match check_connection now d with
      | Returned (ok, d', effects) => Returned (Some ok, d', effects)
      | Raised e => Raised e
      end
  end.

(** The calls one after the other; an exception ends the sequence. *)
Fixpoint invoke_all (calls : list method) (d : Device) : result Device :=
  match calls with
  | [] => Returned d
  | c :: rest =>
      match invoke c d with
      | Returned (_, d', _) => invoke_all rest d'
      | Raised e => Raised e
      end
  end.

(** [notify_observers] with callbacks that may call back into the device:
    [callback o d] is the device after the [on_device_state_changed] of the
    observer [o] has run. *)
Definition notify_observers_live (callback : observer → Device → Device)
    (fuel : nat) (d : Device) : option (Device * list observer) :=
  notification_loop _observers callback fuel 0 d.





End Device.

(** ** src/command.py *)

Module Command.

Record Command := {
  command_id : string;
  name : string;
  description : string;
  parameters : dict;
  required_parameters : list string;
  parameter_types : gmap string pytype;
  parameter_ranges : gmap string (value * value);
  execution_timeout : Z;
  retry_count : Z;
  retry_delay : Z;
  _observers : list observer
}.

(** The messages of [validate_parameters] are f-strings; a constructor
    stands for the literal text and carries the interpolated values. *)
Inductive Message :=
  | MissingRequired (param : string)
    (* "Missing required parameter: {param}" *)
  | InvalidType (param : string) (expected_type : pytype)
    (* "Invalid type for parameter {param}: expected {expected_type.__name__}" *)
  | OutOfRange (param : string) (min_val v max_val : value)
    (* "Parameter {param} out of range: {min_val} <= {value} <= {max_val}" *)
  | ParametersValid.
    (* "Parameters valid" *)

(** The dictionaries that [execute] builds, one constructor per set of
    keys. *)
Inductive Payload :=
  | ErrorOnly (error : Message)
  | Result (command_id device_id : string) (parameters : option dict)
      (timestamp : pytime) (attempt : Z)
  | ErrorResult (error : string) (command_id device_id : string)
      (parameters : option dict) (timestamp : pytime) (attempts : Z).

(** What [execute] does besides returning, in program order: the action on
    the device at the place the source reserves for it, in the iteration
    [attempt] of the loop; [time.sleep(seconds)]; one call of
    [observer.on_command_executed(self, status, result)]. *)
Inductive Effect :=
  | Action (attempt : Z)
  | Sleep (seconds : Z)
  | Notified (o : observer) (snapshot : Command) (status : string)
      (result : Payload).

(** [parameters or {}], [params or {}] *)
Definition or_empty (params : option dict) : dict :=
  match params with
  | Some ((_ :: _) as p) => p
  | _ => []
  end.

Definition init (command_id name description : string)
    (parameters : option dict) : Command :=
  {| command_id := command_id; name := name; description := description;
     parameters := or_empty parameters; required_parameters := [];
     parameter_types := ∅; parameter_ranges := ∅;
     execution_timeout := 5; retry_count := 3; retry_delay := 1;
     _observers := [] |}.

Definition notify_observers (c : Command) (status : string) (result : Payload)
  : list Effect :=
  map (fun o => Notified o c status result) (_observers c).

(** First loop of [validate_parameters]: the required parameters, in
    declaration order. *)
Fixpoint check_required (required : list string) (params : dict)
  : option Message :=
  match required with
  | [] => None
  | param :: rest =>
      if negb (has_key param params)
      then Some (MissingRequired param)
      else check_required rest params
  end.

(** Second loop: the declared types of the supplied parameters. *)
Fixpoint check_types (types : gmap string pytype) (items : dict)
  : option Message :=
  match items with
  | [] => None
  | (param, v) :: rest =>
      match types !! param with
      | Some expected_type =>
          if negb (isinstance v expected_type)
          then Some (InvalidType param expected_type)
          else check_types types rest
      | None => check_types types rest
      end
  end.

(** [min_val <= value <= max_val]: the second comparison is evaluated only
    when the first one holds. *)
Definition between (min_val v max_val : value) : result bool :=
  match py_le min_val v with
  | Raised e => Raised e
  | Returned false => Returned false
  | Returned true => py_le v max_val
  end.

(** Third loop: the declared ranges of the supplied parameters. *)
Fixpoint check_ranges (ranges : gmap string (value * value)) (items : dict)
  : result (option Message) :=
  match items with
  | [] => Returned None
  | (param, v) :: rest =>
      match ranges !! param with
      | Some (min_val, max_val) =>
          match between min_val v max_val with
          | Raised e => Raised e
          | Returned false => Returned (Some (OutOfRange param min_val v max_val))
          | Returned true => check_ranges ranges rest
          end
      | None => check_ranges ranges rest
      end
  end.

Definition validate_parameters (c : Command) (params : dict)
  : result (bool * Message) :=
  match check_required (required_parameters c) params with
  | Some message => Returned (false, message)
  | None =>
      match check_types (parameter_types c) params with
      | Some message => Returned (false, message)
      | None =>
          match check_ranges (parameter_ranges c) params with
          | Raised e => Raised e
          | Returned (Some message) => Returned (false, message)
          | Returned None => Returned (true, ParametersValid)
          end
      end
  end.

(** The loop [for attempt in range(self.retry_count)], with [remaining]
    iterations to go. [action attempt] is the outcome of the action in the
    iteration [attempt] and [clock attempt] the reading of the clock in it.
    A loop that runs out of iterations falls off the end of the function,
    which then returns [None]. *)
Fixpoint attempts (action : Z -> outcome) (clock : Z -> pytime) (c : Command)
    (device : Device.Device) (params : option dict)
    (remaining : nat) (attempt : Z) : option (bool * Payload) * list Effect :=
  match remaining with
  | O => (None, [])
  | S remaining' =>
      match action attempt with
      | Done =>
          let result :=
            Result (command_id c) (Device.device_id device) params
              (clock attempt) (attempt + 1) in
          (Some (true, result),
           Action attempt :: notify_observers c "success" result)
      | Fault e =>
          if (attempt <? retry_count c - 1)%Z then
            let '(r, effects) :=
              attempts action clock c device params remaining' (attempt + 1) in
            (r, Action attempt :: Sleep (retry_delay c) :: effects)
          else
            let error_result :=
              ErrorResult e (command_id c) (Device.device_id device) params
                (clock attempt) (attempt + 1) in
            (Some (false, error_result),
             Action attempt :: notify_observers c "error" error_result)
      end
  end.

(** A call of [execute]: what it returns or raises, the command and the
    device after the call, and the effects. *)
Record Execution := {
  returned : result (option (bool * Payload));
  command_after : Command;
  device_after : Device.Device;
  effects : list Effect
}.

Definition execute (action : Z -> outcome) (clock : Z -> pytime) (c : Command)
    (device : Device.Device) (params : option dict) : Execution :=
  match validate_parameters c (or_empty params) with
  | Raised e =>
      {| returned := Raised e; command_after := c; device_after := device;
         effects := [] |}
  | Returned (false, error_msg) =>
      {| returned := Returned (Some (false, ErrorOnly error_msg));
         command_after := c; device_after := device;
         effects := notify_observers c "validation_error" (ErrorOnly error_msg) |}
  | Returned (true, _) =>
      let '(r, effects) :=
        attempts action clock c device params (Z.to_nat (retry_count c)) 0 in
      {| returned := Returned r; command_after := c; device_after := device;
         effects := effects |}
  end.

Definition set_observers (os : list observer) (c : Command) : Command :=
  {| command_id := command_id c; name := name c; description := description c;
     parameters := parameters c; required_parameters := required_parameters c;
     parameter_types := parameter_types c;
     parameter_ranges := parameter_ranges c;
     execution_timeout := execution_timeout c; retry_count := retry_count c;
     retry_delay := retry_delay c; _observers := os |}.

Definition add_observer (o : observer) (c : Command) : Command :=
  if bool_decide (o ∈ _observers c) then c
  else set_observers (_observers c ++ [o]) c.

Definition remove_observer (o : observer) (c : Command) : Command :=
  if bool_decide (o ∈ _observers c)
  then set_observers (Mode.remove_first o (_observers c)) c
  else c.

(** The dictionary that [get_parameter_info] returns. *)
Record ParameterInfo := {
  p_required : list string;
  p_types : gmap string pytype;
  p_ranges : gmap string (value * value);
  p_defaults : dict
}.

Definition get_parameter_info (c : Command) : ParameterInfo :=
  {| p_required := required_parameters c; p_types := parameter_types c;
     p_ranges := parameter_ranges c; p_defaults := parameters c |}.

(** Subscriptions and cancellations, one after the other. *)
Inductive subscription :=
  | Subscribe (o : observer)
  | Unsubscribe (o : observer).

Definition subscribe_all (calls : list subscription) (c : Command) : Command :=
  fold_left (λ c call, match call with
                       | Subscribe o => add_observer o c
                       | Unsubscribe o => remove_observer o c
                       end) calls c.

(** [notify_observers] with callbacks that may call back into the
    command: [callback o c status result] is the command after the
    [on_command_executed] of the observer [o] has run. *)
Definition notify_observers_live
    (callback : observer → Command → string → Payload → Command)
    (status : string) (result : Payload) (fuel : nat) (c : Command)
  : option (Command * list observer) :=
  notification_loop _observers (λ o c', callback o c' status result) fuel 0 c.

End Command.

(** ** src/python/lisu_framework.py: MappingMatrix *)

Module MappingMatrix.

(** The dictionary stored for an action. *)
Record Mapping := {
  inputs : list string;
  priority : Z;
  enabled : bool
}.

(** [mappings] is iterated, so it is kept in insertion order; the other two
    dictionaries are created empty and never used. *)
Record MappingMatrix := {
  mappings : list (string * Mapping);
  input_config : dict;
  mapping_config : dict
}.

Definition init : MappingMatrix :=
  {| mappings := []; input_config := []; mapping_config := [] |}.

(** [d[k] = v]: the value of an existing key is replaced where the key
    stands, a new key goes to the end. *)
Fixpoint assign (k : string) (v : Mapping) (d : list (string * Mapping))
  : list (string * Mapping) :=
  match d with
  | [] => [(k, v)]
  | (k', v') :: d' =>
      if String.eqb k' k then (k, v) :: d' else (k', v') :: assign k v d'
  end.

Definition create_mapping (input_set action_set : list string)
    (mm : MappingMatrix) : MappingMatrix :=
  {| mappings :=
       fold_left
         (λ d action, assign action {| inputs := input_set; priority := 1;
                                       enabled := true |} d)
         action_set (mappings mm);
     input_config := input_config mm;
     mapping_config := mapping_config mm |}.

Definition _check_input_matches (input_data : dict)
    (required_inputs : list string) : bool :=
  forallb (λ input_name, has_key input_name input_data) required_inputs.

Fixpoint triggered (input_data : dict) (items : list (string * Mapping))
  : list string :=
  match items with
  | [] => []
  | (action, mapping) :: rest =>
      if _check_input_matches input_data (inputs mapping)
      then action :: triggered input_data rest
      else triggered input_data rest
  end.

Definition map_input_to_action (input_data : dict) (mm : MappingMatrix)
  : list string :=
  triggered input_data (mappings mm).

End MappingMatrix.

(** ** Scenarios *)

Module Scenario.

(** The mode of the guarded-transition scenario: one transition from
    "initial" to "armed" under the condition [safety_off = True], and no
    state variable set. *)
Definition armed_mode : Mode.Mode :=
  Mode.add_transition "initial" "armed" (Some [("safety_off", VBool true)])
    (Mode.init "manual" "Manual" "manual control").

(** Two candidates to the same target: the first one guarded by
    [safety_off = True], the second one unguarded, with [safety_off] set to
    [False] and one observer subscribed. *)
Definition two_candidates : Mode.Mode :=
  Mode.add_observer 7
    (fst (Mode.set_state_variable "safety_off" (VBool false)
       (Mode.add_transition "initial" "armed" None armed_mode))).

(** "move" is added as required, added again, "stop" is added as optional
    and "move" is removed. *)
Definition calls : list Mode.call :=
  [Mode.AddCommand "move" true; Mode.AddCommand "move" true;
   Mode.AddCommand "stop" false; Mode.RemoveCommand "move"].

(** A mode with one observer. *)
Definition observed_mode : Mode.Mode := Mode.add_observer 7 armed_mode.

(** A device as constructed, and three failing calls of the transport. *)
Definition fresh_device : Device.Device :=
  Device.init "pad-1" "gamepad" "Pad" "192.168.0.10" 8080.

Definition three_faults : list (outcome * pytime) :=
  [(Fault "timeout", 1%Q); (Fault "timeout", 2%Q); (Fault "refused", 3%Q)].

(** The device after one call of [connect()] that goes through. *)
Definition connected_device : Device.Device :=
  (Device.connect Done 1%Q fresh_device).1.2.

(** The command of the validation scenario: [value] is required and must
    lie in [(0, 1)]; one observer is subscribed. *)
Definition range_command : Command.Command :=
  {| Command.command_id := "set_gain"; Command.name := "Set gain";
     Command.description := "set the gain of an axis";
     Command.parameters := []; Command.required_parameters := ["value"];
     Command.parameter_types := ∅;
     Command.parameter_ranges := {[ "value" := (VInt 0, VInt 1) ]};
     Command.execution_timeout := 5; Command.retry_count := 3;
     Command.retry_delay := 1; Command._observers := [7] |}.

(** A second ranged parameter, [label], and parameters whose [label] is a
    string and whose [value] is beyond its range. *)
Definition two_ranges_command : Command.Command :=
  {| Command.command_id := "set_gain"; Command.name := "Set gain";
     Command.description := "set the gain of an axis";
     Command.parameters := []; Command.required_parameters := ["value"];
     Command.parameter_types := ∅;
     Command.parameter_ranges :=
       {[ "label" := (VInt 0, VInt 1); "value" := (VInt 0, VInt 1) ]};
     Command.execution_timeout := 5; Command.retry_count := 3;
     Command.retry_delay := 1; Command._observers := [7] |}.

Definition label_and_value : dict := [("label", VStr "x"); ("value", VInt 5)].

(** An action that faults twice and then goes through; one that always
    faults; a clock that reads the iteration. *)
Definition third_time_lucky (attempt : Z) : outcome :=
  if (attempt <? 2)%Z then Fault "busy" else Done.


Definition iteration_clock (attempt : Z) : pytime := inject_Z attempt.

(** A session on a device: an observer subscribes, three calls of
    [connect()] fail, and the liveness of the connection is checked. *)
Definition session : list Device.method :=
  [Device.CallAddObserver 7;
   Device.CallConnect (Fault "timeout") 1%Q;
   Device.CallConnect (Fault "timeout") 2%Q;
   Device.CallConnect (Fault "refused") 3%Q;
   Device.CallCheckConnection 4%Q].




(** An observer that unsubscribes from the mode when it is notified. *)
Definition unsubscribes (a : observer) (o : observer) (m : Mode.Mode)
    (event : string) (data : Mode.Data) : Mode.Mode :=
  if bool_decide (o = a) then Mode.remove_observer a m else m.

End Scenario.

(** ** Predicates of the statements *)

(** The invariant of the two command lists of a mode. *)
Definition commands_wf (m : Mode.Mode) : Prop :=
  NoDup (Mode.allowed_commands m) ∧
  NoDup (Mode.required_commands m) ∧
  Mode.required_commands m ⊆ Mode.allowed_commands m.

(** What the guard loop accepts of one condition: the variable is absent,
    or it has the required value. *)
Definition condition_holds (vars : gmap string value) (c : string * value) : Prop :=
  match vars !! c.1 with
  | Some current => py_eqb current c.2 = true
  | None => True
  end.

(** The mode after a successful [transition_to]. *)
Definition moved (now : pytime) (target : string) (m : Mode.Mode) : Mode.Mode :=
  Mode.set_current_state target
    (Mode.set_history
       (Mode._history m ++
          [{| Mode.h_from_state := Mode.current_state m;
              Mode.h_to_state := target;
              Mode.h_timestamp := now |}]) m).

(** The three checks of [validate_parameters] as the specification words
    them: the messages of the required parameters that [params] omits, in
    declaration order; of the supplied parameters whose value is not an
    instance of the declared type; and of the supplied parameters whose
    value is not within the declared bounds, both in the order of
    [params]. *)
Definition required_failures (c : Command.Command) (params : dict)
  : list Command.Message :=
  omap (λ param, if has_key param params then None
                 else Some (Command.MissingRequired param))
    (Command.required_parameters c).

Definition type_failure (c : Command.Command) (item : string * value)
  : option Command.Message :=
  match Command.parameter_types c !! item.1 with
  | Some expected_type =>
      if isinstance item.2 expected_type then None
      else Some (Command.InvalidType item.1 expected_type)
  | None => None
  end.

Definition type_failures (c : Command.Command) (params : dict)
  : list Command.Message :=
  omap (type_failure c) params.

(** [min_val <= v] and [v <= max_val] both hold. *)
Definition inside (min_val v max_val : value) : bool :=
  match py_le min_val v, py_le v max_val with
  | Returned true, Returned true => true
  | _, _ => false
  end.

Definition range_failure (c : Command.Command) (item : string * value)
  : option Command.Message :=
  match Command.parameter_ranges c !! item.1 with
  | Some (min_val, max_val) =>
      if inside min_val item.2 max_val then None
      else Some (Command.OutOfRange item.1 min_val item.2 max_val)
  | None => None
  end.

Definition range_failures (c : Command.Command) (params : dict)
  : list Command.Message :=
  omap (range_failure c) params.

Definition failures (c : Command.Command) (params : dict)
  : list Command.Message :=
  required_failures c params ++ type_failures c params ++ range_failures c params.

(** Every supplied value that has a declared range can be ordered against
    both bounds: numbers against numbers, strings against strings. *)
Definition comparable (c : Command.Command) (params : dict) : Prop :=
  ∀ param v min_val max_val,
    (param, v) ∈ params →
    Command.parameter_ranges c !! param = Some (min_val, max_val) →
    py_le min_val v ≠ Raised TypeError ∧ py_le v max_val ≠ Raised TypeError.


(** How many times the observer [o] occurs among the receivers of a list of
    notifications. *)
Fixpoint times (o : observer) (receivers : list observer) : nat :=
  match receivers with
  | [] => 0
  | x :: rest => (if bool_decide (x = o) then 1 else 0) + times o rest
  end.

(** The history leads from [start] to [finish]: every entry starts where
    the one before it ends. *)
Fixpoint path_from (start : string) (h : list Mode.HistoryEntry)
    (finish : string) : Prop :=
  match h with
  | [] => start = finish
  | entry :: rest =>
      Mode.h_from_state entry = start ∧
      path_from (Mode.h_to_state entry) rest finish
  end.

(** The call is a [transition_to]. *)
Definition is_transition_to (c : Mode.method) : Prop :=
  match c with
  | Mode.CallTransitionTo _ _ => True
  | _ => False
  end.

(** The observers that a list of effects of a device calls, in order. *)
Definition device_receivers (effects : list Device.Effect) : list observer :=
  omap (λ e, match e with Device.Notified o _ => Some o | _ => None end) effects.

(** The device that a list of effects of a device shows to the observers. *)
Definition device_snapshots (effects : list Device.Effect) : list Device.Device :=
  omap (λ e, match e with Device.Notified _ d => Some d | _ => None end) effects.

(** The attempts made are within the budget. *)
Definition budget_ok (d : Device.Device) : Prop :=
  (0 <= Device.connection_attempts d <= Device.max_connection_attempts d)%Z.

(** A connected device has a heartbeat. *)
Definition heartbeat_known (d : Device.Device) : Prop :=
  Device.is_connected d = true → is_Some (Device.last_heartbeat d).


(** * Properties *)

(** ** Membership and removal *)

Lemma mem_true (x : string) (l : list string) : mem x l = true ↔ x ∈ l.
Proof.
  unfold mem. rewrite existsb_exists. split.
  - intros (y & Hy & Heq). apply String.eqb_eq in Heq. subst y.
    by apply list_elem_of_In.
  - intros Hx. exists x. split; [by apply list_elem_of_In | apply String.eqb_refl].
Qed.

Lemma mem_false (x : string) (l : list string) : mem x l = false ↔ x ∉ l.
Proof.
  rewrite <- mem_true. destruct (mem x l); split; congruence.
Qed.

Lemma list_remove_subseteq (x y : string) (l : list string) :
  y ∈ list_remove x l → y ∈ l.
Proof.
  induction l as [|z l IH]; simpl; [done|].
  destruct (String.eqb_spec z x) as [->|Hne]; rewrite !elem_of_cons; tauto.
Qed.

Lemma list_remove_other (x y : string) (l : list string) :
  y ≠ x → y ∈ l → y ∈ list_remove x l.
Proof.
  intros Hne. induction l as [|z l IH]; simpl; [done|].
  destruct (String.eqb_spec z x) as [->|Hzx]; rewrite !elem_of_cons;
    intros [->|Hin]; auto; congruence.
Qed.

Lemma list_remove_NoDup (x : string) (l : list string) :
  NoDup l → NoDup (list_remove x l) ∧ x ∉ list_remove x l.
Proof.
  induction 1 as [|z l Hz Hl IH]; simpl.
  - split; [constructor | apply not_elem_of_nil].
  - destruct (String.eqb_spec z x) as [->|Hzx]; [by split|].
    destruct IH as [IH1 IH2]. split.
    + constructor; [|done]. intros Hin. by apply list_remove_subseteq in Hin.
    + rewrite elem_of_cons. intros [->|Hin]; [congruence | done].
Qed.

(** ** Mode: allowed and required commands *)

Lemma commands_wf_init mode_id name description :
  commands_wf (Mode.init mode_id name description).
Proof. repeat split; simpl; try constructor. set_solver. Qed.

Lemma add_command_allowed c required (m : Mode.Mode) :
  c ∈ Mode.allowed_commands m → Mode.add_command c required m = m.
Proof. intros Hin. unfold Mode.add_command. by rewrite (proj2 (mem_true _ _) Hin). Qed.

Lemma add_command_new c required (m : Mode.Mode) :
  c ∉ Mode.allowed_commands m →
  Mode.allowed_commands (Mode.add_command c required m)
    = Mode.allowed_commands m ++ [c] ∧
  Mode.required_commands (Mode.add_command c required m)
    = (if required then Mode.required_commands m ++ [c]
       else Mode.required_commands m).
Proof.
  intros Hin. unfold Mode.add_command. rewrite (proj2 (mem_false _ _) Hin).
  by destruct required.
Qed.

Lemma add_command_wf c required (m : Mode.Mode) :
  commands_wf m → commands_wf (Mode.add_command c required m).
Proof.
  intros (Ha & Hr & Hsub).
  destruct (decide (c ∈ Mode.allowed_commands m)) as [Hin|Hin].
  - by rewrite add_command_allowed.
  - destruct (add_command_new c required m Hin) as [Ea Er].
    unfold commands_wf. rewrite Ea, Er.
    assert (NoDup (Mode.allowed_commands m ++ [c])) as Ha'.
    { apply NoDup_app. repeat split; [done| |apply NoDup_singleton].
      intros x Hx Hxc. apply list_elem_of_singleton in Hxc. by subst. }
    destruct required; repeat split; try done.
    + apply NoDup_app. repeat split; [done| |apply NoDup_singleton].
      intros x Hx Hxc. apply list_elem_of_singleton in Hxc. subst. by apply Hin, Hsub.
    + intros x Hx. apply elem_of_app in Hx as [Hx|Hx]; apply elem_of_app; auto.
    + intros x Hx. apply elem_of_app. left. by apply Hsub.
Qed.

Lemma remove_command_lists c (m : Mode.Mode) :
  Mode.allowed_commands (Mode.remove_command c m)
    = (if mem c (Mode.allowed_commands m)
       then list_remove c (Mode.allowed_commands m)
       else Mode.allowed_commands m) ∧
  Mode.required_commands (Mode.remove_command c m)
    = (if mem c (Mode.required_commands m)
       then list_remove c (Mode.required_commands m)
       else Mode.required_commands m).
Proof.
  unfold Mode.remove_command.
  destruct (mem c (Mode.allowed_commands m)); simpl;
    destruct (mem c (Mode.required_commands m)); by simpl.
Qed.

Lemma remove_command_gone c (m : Mode.Mode) :
  commands_wf m →
  (c ∉ Mode.allowed_commands (Mode.remove_command c m)) ∧
  (c ∉ Mode.required_commands (Mode.remove_command c m)).
Proof.
  intros (Ha & Hr & _). destruct (remove_command_lists c m) as [-> ->]. split.
  - destruct (mem c _) eqn:E; [by apply list_remove_NoDup | by apply mem_false].
  - destruct (mem c _) eqn:E; [by apply list_remove_NoDup | by apply mem_false].
Qed.

Lemma remove_command_wf c (m : Mode.Mode) :
  commands_wf m → commands_wf (Mode.remove_command c m).
Proof.
  intros (Ha & Hr & Hsub). unfold commands_wf.
  destruct (remove_command_lists c m) as [-> ->].
  assert (mem c (Mode.allowed_commands m) = false →
          mem c (Mode.required_commands m) = false) as Hnone.
  { rewrite !mem_false. intros Hc Hin. by apply Hc, Hsub. }
  destruct (mem c (Mode.allowed_commands m)) eqn:Ea;
    destruct (mem c (Mode.required_commands m)) eqn:Er;
    try (specialize (Hnone eq_refl); discriminate);
    repeat split; try done; try (by apply list_remove_NoDup).
  - intros x Hx. destruct (decide (x = c)) as [->|Hne].
    + by apply (list_remove_NoDup c) in Hr as [_ Hr].
    + apply list_remove_other; [done|]. by apply Hsub, (list_remove_subseteq c).
  - intros x Hx. destruct (decide (x = c)) as [->|Hne].
    + by apply mem_false in Er.
    + apply list_remove_other; [done|]. by apply Hsub.
Qed.

Lemma run_wf calls (m : Mode.Mode) : commands_wf m → commands_wf (Mode.run calls m).
Proof.
  revert m. induction calls as [|[c r|c] calls IH]; intros m Hm; simpl; [done| |].
  - by apply IH, add_command_wf.
  - by apply IH, remove_command_wf.
Qed.

(** C10: after every sequence of [add_command] and [remove_command] calls
    on a freshly constructed mode, [required_commands] is a subset of
    [allowed_commands]; in such a mode [add_command] of an already allowed
    command changes nothing (it does not mark the command required),
    [add_command] of a new command appends it to [allowed_commands] and,
    only when [required] is set, to [required_commands], and
    [remove_command] leaves the command in neither list. *)
Theorem required_subset_allowed mode_id name description calls :
  let m := Mode.run calls (Mode.init mode_id name description) in
  Mode.required_commands m ⊆ Mode.allowed_commands m ∧
  (∀ c required, c ∈ Mode.allowed_commands m →
     Mode.add_command c required m = m) ∧
  (∀ c required, c ∉ Mode.allowed_commands m →
     Mode.allowed_commands (Mode.add_command c required m)
       = Mode.allowed_commands m ++ [c] ∧
     Mode.required_commands (Mode.add_command c required m)
       = (if required then Mode.required_commands m ++ [c]
          else Mode.required_commands m)) ∧
  (∀ c, (c ∉ Mode.allowed_commands (Mode.remove_command c m)) ∧
        (c ∉ Mode.required_commands (Mode.remove_command c m))).
Proof.
  intros m.
  assert (commands_wf m) as Hwf by apply run_wf, commands_wf_init.
  split; [apply Hwf|]. split; [|split].
  - intros c required. apply add_command_allowed.
  - intros c required. apply add_command_new.
  - intros c. by apply remove_command_gone.
Qed.

Lemma required_subset_allowed_calls :
  let m := Mode.run Scenario.calls (Mode.init "manual" "Manual" "manual control") in
  Mode.required_commands m ⊆ Mode.allowed_commands m ∧
  Mode.add_command "stop" true m = m ∧
  Mode.required_commands m = [].
Proof.
  destruct (required_subset_allowed "manual" "Manual" "manual control"
    Scenario.calls) as (Hsub & Hnoop & _ & _).
  split; [exact Hsub|]. split; [|reflexivity].
  apply Hnoop. by left.
Defined.

(** ** Mode: guarded transitions *)

Lemma scan_transitions_first_match vars target pre t post :
  Forall (λ t', Mode.to_state t' ≠ target) pre →
  Mode.to_state t = target →
  Mode.scan_transitions vars target (pre ++ t :: post)
    = Mode.check_conditions vars (Mode.conditions t).
Proof.
  intros Hpre Ht. induction Hpre as [|t' pre Hne _ IH]; simpl.
  - by rewrite (proj2 (String.eqb_eq _ _) Ht).
  - by rewrite (proj2 (String.eqb_neq _ _) Hne).
Qed.

Lemma scan_transitions_no_match vars target candidates :
  Forall (λ t', Mode.to_state t' ≠ target) candidates →
  Mode.scan_transitions vars target candidates = (false, Mode.NoTransitionTo target).
Proof.
  induction 1 as [|t' pre Hne _ IH]; simpl; [done|].
  by rewrite (proj2 (String.eqb_neq _ _) Hne).
Qed.

(** Every list of candidates either has no candidate to [target], or splits
    at the first one. *)
Lemma first_match_split target (candidates : list Mode.Transition) :
  Forall (λ t', Mode.to_state t' ≠ target) candidates ∨
  ∃ pre t post, candidates = pre ++ t :: post ∧
    Forall (λ t', Mode.to_state t' ≠ target) pre ∧ Mode.to_state t = target.
Proof.
  induction candidates as [|t' l IH]; [by left|].
  destruct (decide (Mode.to_state t' = target)) as [Heq|Hne].
  - right. by exists [], t', l.
  - destruct IH as [IH|(pre & t & post & -> & Hpre & Ht)].
    + left. by constructor.
    + right. exists (t' :: pre), t, post. repeat split; [|done]. by constructor.
Qed.

Lemma check_conditions_skip vars c1 k v c2 :
  vars !! k = None →
  Mode.check_conditions vars (c1 ++ (k, v) :: c2)
    = Mode.check_conditions vars (c1 ++ c2).
Proof.
  intros Hk. induction c1 as [|[k' v'] c1 IH]; simpl.
  - by rewrite Hk.
  - rewrite IH. done.
Qed.

Lemma check_conditions_allowed vars conds :
  Forall (condition_holds vars) conds →
  Mode.check_conditions vars conds = (true, Mode.TransitionAllowed).
Proof.
  induction 1 as [|[k v] conds Hkv _ IH]; simpl; [done|].
  unfold condition_holds in Hkv. simpl in Hkv.
  destruct (vars !! k) as [current|]; [|done]. by rewrite Hkv.
Qed.

Lemma check_conditions_cases vars conds :
  Mode.check_conditions vars conds = (true, Mode.TransitionAllowed) ∨
  ∃ k v current, Mode.check_conditions vars conds = (false, Mode.ConditionNotMet k v) ∧
    (k, v) ∈ conds ∧ vars !! k = Some current ∧ py_eqb current v = false.
Proof.
  induction conds as [|[k v] conds IH]; simpl; [by left|].
  destruct (vars !! k) as [current|] eqn:Hk.
  - destruct (py_eqb current v) eqn:Heq; simpl.
    + destruct IH as [IH|(k' & v' & c' & IH & Hin & Hc)]; [by left|].
      right. exists k', v', c'. split; [done|]. split; [by right | done].
    + right. exists k, v, current. split; [done|]. split; [by left | done].
  - destruct IH as [IH|(k' & v' & c' & IH & Hin & Hc)]; [by left|].
    right. exists k', v', c'. split; [done|]. split; [by right | done].
Qed.

Lemma transition_to_failure now target m message :
  Mode.can_transition_to target m = (false, message) →
  Mode.transition_to now target m
    = (false, m,
       Mode.notify_observers m "transition_failed" (Mode.MessageData message)).
Proof. intros H. unfold Mode.transition_to. by rewrite H. Qed.

Lemma transition_to_success now target m message :
  Mode.can_transition_to target m = (true, message) →
  Mode.transition_to now target m
    = (true, moved now target m,
       Mode.notify_observers (moved now target m) "state_changed"
         (Mode.StateChange target target)).
Proof. intros H. unfold Mode.transition_to. by rewrite H. Qed.

(** C1 (amended): a condition of the first candidate to [target] on a
    variable that is absent from [state_variables] is skipped, that is, it
    counts as satisfied. [can_transition_to] decides as if the condition
    were not there; it returns true with "Transition allowed" when every
    condition of that candidate is on an absent variable or on a variable
    that has the required value; and a "Condition not met" result names a
    variable that is present with another value. *)
Theorem can_transition_to_missing_variable (m : Mode.Mode) target pre t post :
  Mode.transitions m !! Mode.current_state m = Some (pre ++ t :: post) →
  Forall (λ t', Mode.to_state t' ≠ target) pre →
  Mode.to_state t = target →
  (∀ c1 k v c2,
     Mode.conditions t = c1 ++ (k, v) :: c2 →
     Mode.state_variables m !! k = None →
     Mode.can_transition_to target m
       = Mode.check_conditions (Mode.state_variables m) (c1 ++ c2)) ∧
  (Forall (condition_holds (Mode.state_variables m)) (Mode.conditions t) →
     Mode.can_transition_to target m = (true, Mode.TransitionAllowed)) ∧
  (∀ k v,
     Mode.can_transition_to target m = (false, Mode.ConditionNotMet k v) →
     ∃ current, Mode.state_variables m !! k = Some current ∧
       py_eqb current v = false).
Proof.
  intros Hts Hpre Ht.
  assert (Mode.can_transition_to target m
          = Mode.check_conditions (Mode.state_variables m) (Mode.conditions t)) as E.
  { unfold Mode.can_transition_to. rewrite Hts.
    by apply scan_transitions_first_match. }
  rewrite E. split; [|split].
  - intros c1 k v c2 -> Hk. by apply check_conditions_skip.
  - apply check_conditions_allowed.
  - intros k v Hfail.
    destruct (check_conditions_cases (Mode.state_variables m) (Mode.conditions t))
      as [Hok|(k' & v' & current & Hko & _ & Hk & Hne)]; [congruence|].
    rewrite Hko in Hfail. injection Hfail as -> ->. by exists current.
Qed.

(** In the scenario of the specification the transition to "armed" is
    allowed although [safety_off] has never been set. *)
Lemma can_transition_to_missing_variable_scenario :
  Mode.state_variables Scenario.armed_mode !! "safety_off" = None ∧
  Mode.can_transition_to "armed" Scenario.armed_mode
    = (true, Mode.TransitionAllowed).
Proof.
  assert (Mode.state_variables Scenario.armed_mode !! "safety_off" = None) as Hk
    by reflexivity.
  split; [exact Hk|].
  refine (proj1 (proj2 (can_transition_to_missing_variable Scenario.armed_mode
    "armed" [] {| Mode.to_state := "armed";
                  Mode.conditions := [("safety_off", VBool true)] |} []
    _ _ _)) _).
  - reflexivity.
  - constructor.
  - reflexivity.
  - constructor; [|constructor]. exact I.
Defined.

(** C1, as stated, fails: the only candidate to "armed" carries a condition
    on [safety_off], which is absent from [state_variables], and
    [can_transition_to("armed")] returns true. *)
Lemma missing_variable_does_not_fail :
  Mode.transitions Scenario.armed_mode !! Mode.current_state Scenario.armed_mode
    = Some [{| Mode.to_state := "armed";
               Mode.conditions := [("safety_off", VBool true)] |}] ∧
  Mode.state_variables Scenario.armed_mode = ∅ ∧
  Mode.can_transition_to "armed" Scenario.armed_mode
    = (true, Mode.TransitionAllowed) ∧
  (Mode.can_transition_to "armed" Scenario.armed_mode).1 ≠ false.
Proof. repeat split. discriminate. Qed.



(** C3: on a successful [transition_to] the entry appended to the history
    has the state before the call as its [from_state], whereas the payload
    of the "state_changed" notification is built after [current_state] has
    been updated: its [from_state] and [to_state] are both the target. *)
Theorem transition_to_from_state now target (m : Mode.Mode) :
  (Mode.transition_to now target m).1.1 = true →
  let m' := (Mode.transition_to now target m).1.2 in
  Mode._history m'
    = Mode._history m ++
        [{| Mode.h_from_state := Mode.current_state m;
            Mode.h_to_state := target;
            Mode.h_timestamp := now |}] ∧
  (Mode.transition_to now target m).2
    = map (λ o, {| Mode.n_observer := o; Mode.n_mode := m';
                   Mode.n_event := "state_changed";
                   Mode.n_data := Mode.StateChange target target |})
        (Mode._observers m).
Proof.
  destruct (Mode.can_transition_to target m) as [[|] message] eqn:Hcan.
  - rewrite (transition_to_success now _ _ _ Hcan). simpl. by intros _.
  - rewrite (transition_to_failure now _ _ _ Hcan). simpl. discriminate.
Qed.

Lemma transition_to_from_state_armed :
  Mode._history (Mode.transition_to 5%Q "armed" Scenario.observed_mode).1.2
    = [{| Mode.h_from_state := "initial"; Mode.h_to_state := "armed";
          Mode.h_timestamp := 5%Q |}] ∧
  map Mode.n_data (Mode.transition_to 5%Q "armed" Scenario.observed_mode).2
    = [Mode.StateChange "armed" "armed"].
Proof.
  destruct (transition_to_from_state 5%Q "armed" Scenario.observed_mode eq_refl)
    as [Hhistory Hnotes].
  split; [exact Hhistory | by rewrite Hnotes].
Defined.



(** ** Device: the connection budget *)

Lemma connect_exhausted transport now (d : Device.Device) :
  (Device.max_connection_attempts d <= Device.connection_attempts d)%Z →
  Device.connect transport now d
    = (false, Device.set_status "connection_failed" d,
       Device.notify_observers (Device.set_status "connection_failed" d)).
Proof.
  intros H. unfold Device.connect.
  by rewrite (proj2 (Z.leb_le _ _) H).
Qed.







(** ** Device: sending a command *)



(** ** Command: validation *)

Lemma check_required_head required params :
  Command.check_required required params
    = head (omap (λ param, if has_key param params then None
                           else Some (Command.MissingRequired param)) required).
Proof.
  induction required as [|param rest IH]; simpl; [done|].
  by destruct (has_key param params).
Qed.

Lemma check_types_head (c : Command.Command) items :
  Command.check_types (Command.parameter_types c) items
    = head (type_failures c items).
Proof.
  induction items as [|[param v] rest IH]; simpl; [done|].
  unfold type_failures, type_failure in *. simpl.
  destruct (Command.parameter_types c !! param) as [expected_type|]; [|done].
  by destruct (isinstance v expected_type).
Qed.

Lemma between_inside min_val v max_val :
  py_le min_val v ≠ Raised TypeError →
  py_le v max_val ≠ Raised TypeError →
  Command.between min_val v max_val = Returned (inside min_val v max_val).
Proof.
  unfold Command.between, inside. intros Hlo Hhi.
  destruct (py_le min_val v) as [[|]|[]]; [|done|done].
  by destruct (py_le v max_val) as [[|]|[]].
Qed.

Lemma check_ranges_head (c : Command.Command) items :
  comparable c items →
  Command.check_ranges (Command.parameter_ranges c) items
    = Returned (head (range_failures c items)).
Proof.
  unfold comparable.
  induction items as [|[param v] rest IH]; intros Hcmp; simpl; [done|].
  assert (Command.check_ranges (Command.parameter_ranges c) rest
          = Returned (head (range_failures c rest))) as IH'.
  { apply IH. intros p w lo hi Hin. apply Hcmp. by right. }
  unfold range_failures, range_failure in *. simpl.
  destruct (Command.parameter_ranges c !! param) as [[min_val max_val]|] eqn:Hr;
    [|done].
  destruct (Hcmp param v min_val max_val (list_elem_of_here _ _) Hr) as [Hlo Hhi].
  rewrite between_inside by done.
  by destruct (inside min_val v max_val).
Qed.

Lemma validate_parameters_early (c : Command.Command) params message :
  head (required_failures c params ++ type_failures c params) = Some message →
  Command.validate_parameters c params = Returned (false, message).
Proof.
  unfold Command.validate_parameters.
  rewrite check_required_head, check_types_head, head_app.
  fold (required_failures c params).
  destruct (head (required_failures c params)); [congruence|].
  by intros ->.
Qed.

Lemma validate_parameters_head (c : Command.Command) params :
  comparable c params →
  Command.validate_parameters c params
    = Returned match head (failures c params) with
               | Some message => (false, message)
               | None => (true, Command.ParametersValid)
               end.
Proof.
  intros Hcmp. unfold Command.validate_parameters, failures.
  rewrite check_required_head, check_types_head, check_ranges_head by done.
  fold (required_failures c params). rewrite !head_app.
  destruct (head (required_failures c params)); [done|].
  destruct (head (type_failures c params)); [done|].
  by destruct (head (range_failures c params)).
Qed.

Lemma failures_elem_of (c : Command.Command) params :
  (∃ message, message ∈ failures c params) ↔
  (∃ param, param ∈ Command.required_parameters c ∧ has_key param params = false) ∨
  (∃ param v expected_type,
     (param, v) ∈ params ∧
     Command.parameter_types c !! param = Some expected_type ∧
     isinstance v expected_type = false) ∨
  (∃ param v min_val max_val,
     (param, v) ∈ params ∧
     Command.parameter_ranges c !! param = Some (min_val, max_val) ∧
     inside min_val v max_val = false).
Proof.
  unfold failures, required_failures, type_failures, range_failures. split.
  - intros (message & Hin).
    rewrite !elem_of_app, !list_elem_of_omap in Hin.
    destruct Hin as [(param & Hin & Hf)|[([param v] & Hin & Hf)|([param v] & Hin & Hf)]].
    + left. exists param. split; [done|]. by destruct (has_key param params).
    + right; left. unfold type_failure in Hf. simpl in Hf.
      destruct (Command.parameter_types c !! param) as [expected_type|] eqn:Ht;
        [|done].
      exists param, v, expected_type. split; [done|]. split; [done|].
      by destruct (isinstance v expected_type).
    + right; right. unfold range_failure in Hf. simpl in Hf.
      destruct (Command.parameter_ranges c !! param) as [[min_val max_val]|] eqn:Hr;
        [|done].
      exists param, v, min_val, max_val. split; [done|]. split; [done|].
      by destruct (inside min_val v max_val).
  - intros [(param & Hin & Hf)|[(param & v & expected_type & Hin & Ht & Hf)
                               |(param & v & min_val & max_val & Hin & Hr & Hf)]].
    + exists (Command.MissingRequired param).
      rewrite !elem_of_app, !list_elem_of_omap. left.
      exists param. by rewrite Hf.
    + exists (Command.InvalidType param expected_type).
      rewrite !elem_of_app, !list_elem_of_omap. right; left.
      exists (param, v). unfold type_failure. simpl. by rewrite Ht, Hf.
    + exists (Command.OutOfRange param min_val v max_val).
      rewrite !elem_of_app, !list_elem_of_omap. right; right.
      exists (param, v). unfold range_failure. simpl. by rewrite Hr, Hf.
Qed.

(** X25: a missing required parameter or a supplied value that is not an
    instance of its declared type always makes [validate_parameters]
    return false, with the message of the first such failure, required
    parameters first and in declaration order. When every supplied value
    that has a declared range can be ordered against its bounds,
    [validate_parameters] returns, and returns false exactly when [params]
    omits a required parameter, or a supplied value is not an instance of
    its declared type, or a supplied value with a declared range is not
    within the inclusive bounds; the message is that of the first failure
    in the order required, type, range. *)
Theorem validate_parameters_checks (c : Command.Command) params :
  (∀ message,
     head (required_failures c params ++ type_failures c params) = Some message →
     Command.validate_parameters c params = Returned (false, message)) ∧
  (comparable c params →
     Command.validate_parameters c params
       = Returned match head (failures c params) with
                  | Some message => (false, message)
                  | None => (true, Command.ParametersValid)
                  end ∧
     ((∃ message, Command.validate_parameters c params = Returned (false, message)) ↔
      (∃ param, param ∈ Command.required_parameters c ∧
         has_key param params = false) ∨
      (∃ param v expected_type,
         (param, v) ∈ params ∧
         Command.parameter_types c !! param = Some expected_type ∧
         isinstance v expected_type = false) ∨
      (∃ param v min_val max_val,
         (param, v) ∈ params ∧
         Command.parameter_ranges c !! param = Some (min_val, max_val) ∧
         inside min_val v max_val = false))).
Proof.
  split; [apply validate_parameters_early|].
  intros Hcmp. pose proof (validate_parameters_head c params Hcmp) as E.
  split; [exact E|].
  rewrite <- failures_elem_of, E. split.
  - intros (message & Hret).
    destruct (failures c params) as [|first rest]; [done|].
    exists first. by left.
  - intros (message & Hin).
    destruct (failures c params) as [|first rest];
      [by apply elem_of_nil in Hin|].
    by exists first.
Qed.

Lemma validate_parameters_checks_out_of_range :
  Command.validate_parameters Scenario.range_command [("value", VFloat (3 # 2))]
    = Returned (false,
        Command.OutOfRange "value" (VInt 0) (VFloat (3 # 2)) (VInt 1)).
Proof.
  refine (proj1 (proj2 (validate_parameters_checks Scenario.range_command
    [("value", VFloat (3 # 2))]) _)).
  intros param v min_val max_val Hin Hrange.
  apply list_elem_of_singleton in Hin. injection Hin as -> ->.
  vm_compute in Hrange. injection Hrange as <- <-.
  split; discriminate.
Defined.

(** C4: [validate_parameters] does not return false for every parameter
    map with a range violation. Here [value] is supplied and lies beyond
    its declared range, no required parameter is missing and no type is
    declared, and the call raises [TypeError] instead of returning: the
    parameter before it holds a string, which the range check compares
    with its numeric bounds. *)
Lemma validate_parameters_raises :
  ("value", VInt 5) ∈ Scenario.label_and_value ∧
  Command.parameter_ranges Scenario.two_ranges_command !! "value"
    = Some (VInt 0, VInt 1) ∧
  inside (VInt 0) (VInt 5) (VInt 1) = false ∧
  Command.validate_parameters Scenario.two_ranges_command Scenario.label_and_value
    = Raised TypeError ∧
  ¬ ∃ message,
      Command.validate_parameters Scenario.two_ranges_command
        Scenario.label_and_value = Returned (false, message).
Proof.
  repeat split.
  - right. left.
  - intros (message & H). discriminate H.
Qed.

(** ** Command: execution *)

Lemma not_elem_of_notify_observers (c : Command.Command) status result effect :
  (∀ o snapshot status' result', effect ≠ Command.Notified o snapshot status' result') →
  effect ∉ Command.notify_observers c status result.
Proof.
  intros Hne Hin. unfold Command.notify_observers in Hin.
  apply list_elem_of_fmap in Hin as (o & -> & _). by eapply Hne.
Qed.

(** C5: when [validate_parameters] fails, [execute] neither performs the
    action nor sleeps for a retry. It notifies every observer once, with
    the status "validation_error" and the message, returns false with
    the message as payload, and leaves the device, in particular its
    [command_history], and the command as they were. *)
Theorem execute_validation_error action clock (c : Command.Command)
    (device : Device.Device) params message :
  Command.validate_parameters c (Command.or_empty params)
    = Returned (false, message) →
  let e := Command.execute action clock c device params in
  Command.returned e = Returned (Some (false, Command.ErrorOnly message)) ∧
  Command.effects e
    = map (λ o, Command.Notified o c "validation_error" (Command.ErrorOnly message))
        (Command._observers c) ∧
  (∀ attempt, Command.Action attempt ∉ Command.effects e) ∧
  (∀ seconds, Command.Sleep seconds ∉ Command.effects e) ∧
  Command.device_after e = device ∧
  Device.command_history (Command.device_after e) = Device.command_history device ∧
  Command.command_after e = c.
Proof.
  intros Hval. unfold Command.execute. rewrite Hval. simpl.
  repeat split.
  - intros attempt. by apply not_elem_of_notify_observers.
  - intros seconds. by apply not_elem_of_notify_observers.
Qed.

Lemma execute_validation_error_out_of_range :
  let e := Command.execute Scenario.third_time_lucky Scenario.iteration_clock
             Scenario.range_command Scenario.connected_device
             (Some [("value", VFloat (3 # 2))]) in
  Command.returned e
    = Returned (Some (false, Command.ErrorOnly
        (Command.OutOfRange "value" (VInt 0) (VFloat (3 # 2)) (VInt 1)))) ∧
  Command.effects e
    = [Command.Notified 7 Scenario.range_command "validation_error"
         (Command.ErrorOnly
            (Command.OutOfRange "value" (VInt 0) (VFloat (3 # 2)) (VInt 1)))] ∧
  Device.command_history (Command.device_after e) = [].
Proof.
  destruct (execute_validation_error Scenario.third_time_lucky
    Scenario.iteration_clock Scenario.range_command Scenario.connected_device
    (Some [("value", VFloat (3 # 2))])
    (Command.OutOfRange "value" (VInt 0) (VFloat (3 # 2)) (VInt 1)) eq_refl)
    as (Hret & Heff & _ & _ & _ & Hhist & _).
  split; [exact Hret|]. split; [exact Heff|]. by rewrite Hhist.
Defined.





(** Outside the domain of [retry_count]: with no iteration to run, the loop
    is skipped and [execute] falls off its end. *)
Lemma execute_no_attempt action clock (c : Command.Command)
    (device : Device.Device) params message :
  Command.validate_parameters c (Command.or_empty params)
    = Returned (true, message) →
  (Command.retry_count c <= 0)%Z →
  Command.returned (Command.execute action clock c device params) = Returned None ∧
  Command.effects (Command.execute action clock c device params) = [].
Proof.
  intros Hval Hrc. unfold Command.execute. rewrite Hval.
  replace (Z.to_nat (Command.retry_count c)) with 0%nat by lia. done.
Qed.

(** * Further properties *)

(** ** Observer lists *)

Lemma remove_first_subseteq (o x : observer) (l : list observer) :
  x ∈ Mode.remove_first o l → x ∈ l.
Proof.
  induction l as [|y l IH]; simpl; [done|].
  case_bool_decide; rewrite !elem_of_cons; tauto.
Qed.

Lemma remove_first_NoDup (o : observer) (l : list observer) :
  NoDup l → NoDup (Mode.remove_first o l) ∧ o ∉ Mode.remove_first o l.
Proof.
  induction 1 as [|y l Hy Hl IH]; simpl.
  - split; [constructor | apply not_elem_of_nil].
  - case_bool_decide as Heq; [subst; by split|].
    destruct IH as [IH1 IH2]. split.
    + constructor; [|done]. intros Hin. by apply remove_first_subseteq in Hin.
    + rewrite elem_of_cons. intros [->|Hin]; [congruence | done].
Qed.

Lemma snoc_NoDup (o : observer) (l : list observer) :
  NoDup l → o ∉ l → NoDup (l ++ [o]).
Proof.
  intros Hl Ho. apply NoDup_app. repeat split; [done| |apply NoDup_singleton].
  intros x Hx Hxo. apply list_elem_of_singleton in Hxo. by subst.
Qed.

Lemma times_NoDup (o : observer) (l : list observer) :
  NoDup l → times o l = if bool_decide (o ∈ l) then 1 else 0.
Proof.
  induction 1 as [|y l Hy Hl IH]; simpl; [done|].
  rewrite IH. destruct (decide (y = o)) as [Heq|Hne].
  - subst y. rewrite (bool_decide_eq_true_2 (o = o)) by done.
    rewrite (bool_decide_eq_false_2 (o ∈ l)) by done.
    by rewrite (bool_decide_eq_true_2 (o ∈ o :: l)) by (by left).
  - rewrite (bool_decide_eq_false_2 (y = o)) by done. simpl.
    destruct (decide (o ∈ l)) as [Hin|Hin].
    + rewrite (bool_decide_eq_true_2 (o ∈ l)) by done.
      by rewrite (bool_decide_eq_true_2 (o ∈ y :: l)) by (by right).
    + rewrite (bool_decide_eq_false_2 (o ∈ l)) by done.
      rewrite (bool_decide_eq_false_2 (o ∈ y :: l)); [done|].
      rewrite elem_of_cons. intros [->|?]; [congruence | done].
Qed.

(** ** The notification loop on a live list *)

Lemma remove_first_middle (a : observer) (l1 l2 : list observer) :
  a ∉ l1 → Mode.remove_first a (l1 ++ a :: l2) = l1 ++ l2.
Proof.
  induction l1 as [|x l1 IH]; simpl; intros Ha.
  - by rewrite bool_decide_eq_true_2.
  - apply not_elem_of_cons in Ha as [Hne Ha].
    rewrite bool_decide_eq_false_2 by done. by rewrite IH.
Qed.

Section LoopFacts.

Context {T : Type}.
Variable observers : T → list observer.
Variable call : observer → T → T.

(** From a position on, when no callback of an observer still to come
    changes the list, the loop calls exactly the observers from that
    position on. *)
Lemma notification_loop_stable fuel position (s : T) :
  (∀ o s', o ∈ drop position (observers s) →
     observers s' = observers s → observers (call o s') = observers s') →
  length (observers s) - position < fuel →
  ∃ s', notification_loop observers call fuel position s
          = Some (s', drop position (observers s)) ∧
        observers s' = observers s.
Proof.
  revert position s.
  induction fuel as [|fuel IH]; intros position s Hkeep Hfuel; [lia|].
  simpl. destruct (observers s !! position) as [o|] eqn:Ho.
  - rewrite (drop_S _ _ _ Ho) in Hkeep |- *.
    assert (observers (call o s) = observers s) as Hsame
      by (apply Hkeep; [by left | done]).
    apply lookup_lt_Some in Ho.
    destruct (IH (S position) (call o s)) as (s' & Hloop & Hs').
    + rewrite Hsame. intros o' s'' Hin Heq. rewrite <- Hsame in Heq.
      rewrite (Hkeep o' s''); [by rewrite Heq | by right | by rewrite Heq, Hsame].
    + rewrite Hsame. lia.
    + exists s'. rewrite Hloop, Hsame. by split; [|rewrite Hs'].
  - apply lookup_ge_None in Ho. exists s. by rewrite drop_ge.
Qed.

(** The loop over a first stretch of observers whose callbacks leave the
    list alone. *)
Lemma notification_loop_prefix pre l1 rest (s : T) :
  observers s = pre ++ l1 ++ rest →
  (∀ o s', o ∈ l1 → observers (call o s') = observers s') →
  ∃ s1, observers s1 = observers s ∧
    ∀ fuel,
      notification_loop observers call (length l1 + fuel) (length pre) s
      = (λ r, (r.1, l1 ++ r.2)) <$>
          notification_loop observers call fuel (length pre + length l1) s1.
Proof.
  revert pre s. induction l1 as [|o l1 IH]; intros pre s Hs Hkeep.
  - exists s. split; [done|]. intros fuel. simpl. rewrite Nat.add_0_r.
    by destruct (notification_loop _ _ _ _ _) as [[s' called]|].
  - destruct (IH (pre ++ [o]) (call o s)) as (s1 & Hs1 & Hloop).
    + rewrite Hkeep by (by left). rewrite Hs. by rewrite <- app_assoc.
    + intros o' s' Hin. apply Hkeep. by right.
    + exists s1. split; [by rewrite Hs1, Hkeep by (by left)|].
      intros fuel. simpl.
      assert (observers s !! length pre = Some o) as ->.
      { rewrite Hs. by rewrite lookup_app_r, Nat.sub_diag by lia. }
      specialize (Hloop fuel). rewrite length_app in Hloop. simpl in Hloop.
      rewrite Nat.add_1_r in Hloop. rewrite Hloop.
      replace (length pre + S (length l1)) with (S (length pre) + length l1) by lia.
      by destruct (notification_loop _ _ fuel _ s1) as [[s' called]|].
Qed.

(** An observer that unsubscribes while it is being notified hides the
    observer after it from the loop. *)
Lemma notification_loop_skip l1 a b l2 (s : T) :
  observers s = l1 ++ a :: b :: l2 →
  NoDup (observers s) →
  (∀ s', observers (call a s') = Mode.remove_first a (observers s')) →
  (∀ o s', o ≠ a → observers (call o s') = observers s') →
  ∃ s', notification_loop observers call (S (length (observers s))) 0 s
          = Some (s', l1 ++ a :: l2) ∧
        observers s' = l1 ++ b :: l2.
Proof.
  intros Hs Hnd Ha Hother. rewrite Hs in Hnd.
  apply NoDup_app in Hnd as (Hl1 & Hdisj & Hrest).
  apply NoDup_cons in Hrest as [Hab Hrest].
  apply NoDup_cons in Hrest as [Hbl2 Hl2].
  assert (a ∉ l1) as Ha1 by (intros Hin; apply (Hdisj a Hin); by left).
  destruct (notification_loop_prefix [] l1 (a :: b :: l2) s Hs) as (s1 & Hs1 & Hloop).
  { intros o s' Hin. apply Hother. intros ->. done. }
  rewrite Hs in Hs1.
  remember (S (S (length l2))) as fuel2 eqn:Hfuel2.
  replace (S (length (observers s))) with (length l1 + S fuel2)
    by (rewrite Hs, length_app; simpl; lia).
  rewrite Hloop. simpl.
  assert (observers s1 !! length l1 = Some a) as ->.
  { rewrite Hs1. by rewrite lookup_app_r, Nat.sub_diag by lia. }
  assert (observers (call a s1) = l1 ++ b :: l2) as Hs2.
  { rewrite Ha, Hs1. by apply remove_first_middle. }
  destruct (notification_loop_stable fuel2 (S (length l1)) (call a s1))
    as (s' & Hrun & Hs').
  - rewrite Hs2. intros o s' Hin Heq. rewrite Hother; [done|].
    intros ->. apply Hab. right.
    replace (S (length l1)) with (length (l1 ++ [b])) in Hin
      by (rewrite length_app; simpl; lia).
    change (l1 ++ b :: l2) with (l1 ++ [b] ++ l2) in Hin.
    rewrite app_assoc, drop_app_length in Hin. done.
  - rewrite Hs2, length_app. simpl. lia.
  - exists s'. rewrite Hrun, Hs2. split; [|by rewrite Hs', Hs2].
    simpl. do 3 f_equal.
    replace (S (length l1)) with (length (l1 ++ [b]))
      by (rewrite length_app; simpl; lia).
    change (l1 ++ b :: l2) with (l1 ++ [b] ++ l2).
    by rewrite app_assoc, drop_app_length.
Qed.

End LoopFacts.

(** ** Mode: observers *)

Lemma mode_invoke_observers (c : Mode.method) (m : Mode.Mode) :
  NoDup (Mode._observers m) → NoDup (Mode._observers (Mode.invoke c m).1).
Proof.
  intros Hm. destruct c; simpl; try done.
  - unfold Mode.add_observer. case_bool_decide as Hin; [done|].
    simpl. by apply snoc_NoDup.
  - unfold Mode.remove_observer. case_bool_decide as Hin; [|done].
    simpl. by apply remove_first_NoDup.
  - unfold Mode.add_command. destruct (mem _ _); [done|]. by destruct required.
  - unfold Mode.remove_command.
    destruct (mem command_id (Mode.allowed_commands m)); simpl;
      destruct (mem _ _); done.
  - unfold Mode.transition_to.
    destruct (Mode.can_transition_to target m) as [[|] message]; done.
Qed.

Lemma mode_invoke_all_observers calls (m : Mode.Mode) :
  NoDup (Mode._observers m) → NoDup (Mode._observers (Mode.invoke_all calls m).1).
Proof.
  revert m. induction calls as [|c calls IH]; intros m Hm; simpl; [done|].
  pose proof (mode_invoke_observers c m Hm) as H1.
  destruct (Mode.invoke c m) as [m1 notes]. simpl in H1.
  specialize (IH m1 H1).
  destruct (Mode.invoke_all calls m1) as [m2 notes']. done.
Qed.

(** X1: whatever methods have been called on a mode since its
    construction, no observer is subscribed twice. A round of
    notifications in which no callback changes the list of observers
    therefore calls every subscribed observer exactly once, in
    subscription order, and nobody else; and after [remove_observer] the
    observer is no longer subscribed. *)
Theorem mode_observers_called_once mode_id name description calls :
  let m := (Mode.invoke_all calls (Mode.init mode_id name description)).1 in
  NoDup (Mode._observers m) ∧
  (∀ callback event data,
     (∀ o m', Mode._observers (callback o m' event data) = Mode._observers m') →
     ∃ m',
       Mode.notify_observers_live callback event data
         (S (length (Mode._observers m))) m = Some (m', Mode._observers m) ∧
       ∀ o, times o (Mode._observers m)
              = if bool_decide (o ∈ Mode._observers m) then 1 else 0) ∧
  (∀ o, o ∉ Mode._observers (Mode.remove_observer o m)).
Proof.
  intros m.
  assert (NoDup (Mode._observers m)) as Hm.
  { apply mode_invoke_all_observers. constructor. }
  split; [done|]. split.
  - intros callback event data Hkeep. unfold Mode.notify_observers_live.
    destruct (notification_loop_stable Mode._observers
      (λ o m', callback o m' event data) (S (length (Mode._observers m))) 0 m)
      as (m' & Hloop & _); [by intros o s' _ _ | lia |].
    exists m'. split; [by rewrite Hloop|]. intros o. by apply times_NoDup.
  - intros o. unfold Mode.remove_observer. case_bool_decide as Hin; [|done].
    simpl. by apply remove_first_NoDup.
Qed.

(** X26: an observer that unsubscribes from a mode while it is being
    notified hides the observer after it. With the observers [l1], [a],
    [b], [l2] subscribed in this order and the callback of [a] calling
    [remove_observer] on itself, a round of notifications calls [l1], [a]
    and [l2]: [b] is not called although it stays subscribed. *)
Theorem unsubscribing_observer_hides_the_next l1 a b l2 event data (m : Mode.Mode) :
  Mode._observers m = l1 ++ a :: b :: l2 →
  NoDup (Mode._observers m) →
  ∃ m',
    Mode.notify_observers_live (Scenario.unsubscribes a) event data
      (S (length (Mode._observers m))) m = Some (m', l1 ++ a :: l2) ∧
    Mode._observers m' = l1 ++ b :: l2 ∧
    b ∉ l1 ++ a :: l2.
Proof.
  intros Hm Hnd. unfold Mode.notify_observers_live.
  destruct (notification_loop_skip Mode._observers
    (λ o m', Scenario.unsubscribes a o m' event data) l1 a b l2 m Hm Hnd)
    as (m' & Hloop & Hm').
  - intros s'. unfold Scenario.unsubscribes, Mode.remove_observer.
    rewrite bool_decide_eq_true_2 by done.
    case_bool_decide as Hin; [done|]. clear -Hin.
    induction (Mode._observers s') as [|x l IH]; simpl; [done|].
    apply not_elem_of_cons in Hin as [Hne Hin].
    rewrite bool_decide_eq_false_2 by done. by rewrite <- IH.
  - intros o s' Hne. unfold Scenario.unsubscribes.
    by rewrite bool_decide_eq_false_2.
  - exists m'. split; [done|]. split; [done|].
    rewrite Hm in Hnd.
    apply NoDup_app in Hnd as (_ & Hdisj & Hrest).
    apply NoDup_cons in Hrest as [Hab Hrest].
    apply NoDup_cons in Hrest as [Hbl2 _].
    rewrite elem_of_app, elem_of_cons. intros [Hin|[->|Hin]].
    + apply (Hdisj b Hin). right. by left.
    + apply Hab. by left.
    + done.
Qed.

Lemma unsubscribing_observer_hides_the_next_scenario :
  ∃ m',
    Mode.notify_observers_live (Scenario.unsubscribes 7) "state_changed"
      (Mode.StateChange "armed" "armed") 3
      (Mode.add_observer 8 Scenario.observed_mode) = Some (m', [7]) ∧
    Mode._observers m' = [8].
Proof.
  destruct (unsubscribing_observer_hides_the_next [] 7 8 [] "state_changed"
    (Mode.StateChange "armed" "armed")
    (Mode.add_observer 8 Scenario.observed_mode) eq_refl) as (m' & Hrun & Hm' & _).
  - repeat constructor; [|apply not_elem_of_nil].
    intros Hin. apply list_elem_of_singleton in Hin. discriminate.
  - by exists m'.
Defined.

(** ** Mode: state variables *)

(** X2: [get_state_variable] after [set_state_variable] returns the value
    that was set, the last one when the variable is set twice; the other
    variables, [current_state], the transitions and the history are
    untouched; every observer is told the name and the value. *)
Theorem set_state_variable_get name v (m : Mode.Mode) :
  let m' := (Mode.set_state_variable name v m).1 in
  Mode.get_state_variable name m' = Some v ∧
  (∀ other, other ≠ name →
     Mode.get_state_variable other m' = Mode.get_state_variable other m) ∧
  (∀ v', (Mode.set_state_variable name v' m').1 = (Mode.set_state_variable name v' m).1) ∧
  Mode.current_state m' = Mode.current_state m ∧
  Mode.transitions m' = Mode.transitions m ∧
  Mode._history m' = Mode._history m ∧
  map (λ n, (Mode.n_observer n, Mode.n_event n, Mode.n_data n))
      (Mode.set_state_variable name v m).2
    = map (λ o, (o, "variable_changed", Mode.VariableChange name v))
        (Mode._observers m).
Proof.
  unfold Mode.set_state_variable, Mode.get_state_variable. simpl.
  split; [apply lookup_insert_eq|].
  split; [intros other Hne; by apply lookup_insert_ne|].
  split; [intros v'; unfold Mode.set_state_variables; simpl;
          by rewrite insert_insert_eq|].
  repeat split. unfold Mode.notify_observers. by rewrite map_map.
Qed.

Lemma py_eqb_refl v : py_eqb v v = true.
Proof.
  destruct v as [|b|n|x|s]; simpl; try done.
  - by destruct b.
  - apply Qeq_bool_iff. reflexivity.
  - apply Qeq_bool_iff. reflexivity.
  - apply String.eqb_refl.
Qed.

Lemma condition_holds_insert_eq vars k v required :
  py_eqb v required = true → condition_holds (<[k:=v]> vars) (k, required).
Proof. intros H. unfold condition_holds. simpl. by rewrite lookup_insert_eq. Qed.

Lemma condition_holds_insert_ne vars k v c :
  c.1 ≠ k → condition_holds vars c → condition_holds (<[k:=v]> vars) c.
Proof.
  intros Hne H. unfold condition_holds in *. by rewrite lookup_insert_ne.
Qed.

(** X3: setting a variable to the value a guard requires clears that
    guard. If every condition of the first candidate to the target either
    is on the variable being set and requires a value equal to the new one,
    or already holds, then after [set_state_variable] the call
    [transition_to] returns true and the mode is in the target state. *)
Theorem set_state_variable_enables now name v target (m : Mode.Mode) pre t post :
  Mode.transitions m !! Mode.current_state m = Some (pre ++ t :: post) →
  Forall (λ t', Mode.to_state t' ≠ target) pre →
  Mode.to_state t = target →
  Forall (λ c, (c.1 = name ∧ py_eqb v c.2 = true) ∨
               (c.1 ≠ name ∧ condition_holds (Mode.state_variables m) c))
    (Mode.conditions t) →
  let m' := (Mode.set_state_variable name v m).1 in
  (Mode.transition_to now target m').1.1 = true ∧
  Mode.current_state (Mode.transition_to now target m').1.2 = target.
Proof.
  intros Hts Hpre Ht Hconds m'.
  assert (Mode.can_transition_to target m' = (true, Mode.TransitionAllowed)) as Hcan.
  { unfold Mode.can_transition_to, m', Mode.set_state_variable. simpl.
    rewrite Hts, scan_transitions_first_match by done.
    apply check_conditions_allowed.
    eapply Forall_impl; [exact Hconds|].
    intros [k required] [[Hk Heq]|[Hk Hold]]; simpl in *.
    - subst k. by apply condition_holds_insert_eq.
    - by apply condition_holds_insert_ne. }
  by rewrite (transition_to_success now _ _ _ Hcan).
Qed.

Lemma set_state_variable_enables_armed :
  (Mode.transition_to 9%Q "armed"
     (Mode.set_state_variable "safety_off" (VBool true) Scenario.two_candidates).1).1.1
    = true.
Proof.
  refine (proj1 (set_state_variable_enables 9%Q "safety_off" (VBool true) "armed"
    Scenario.two_candidates []
    {| Mode.to_state := "armed"; Mode.conditions := [("safety_off", VBool true)] |}
    [{| Mode.to_state := "armed"; Mode.conditions := [] |}]
    eq_refl (Forall_nil_2 _) eq_refl _)).
  constructor; [|constructor]. left. by split.
Defined.

(** ** Mode: declaring transitions *)

Lemma add_transition_lookup from_state to_state conditions (m : Mode.Mode) :
  let m' := Mode.add_transition from_state to_state conditions m in
  Mode.transitions m' !! from_state
    = Some (default [] (Mode.transitions m !! from_state) ++
            [{| Mode.to_state := to_state;
                Mode.conditions := Mode.or_empty conditions |}]) ∧
  (∀ s, s ≠ from_state → Mode.transitions m' !! s = Mode.transitions m !! s) ∧
  Mode.state_variables m' = Mode.state_variables m ∧
  Mode.current_state m' = Mode.current_state m.
Proof.
  unfold Mode.add_transition. simpl. split; [|split; [|done]].
  - rewrite lookup_insert_eq.
    destruct (Mode.transitions m !! from_state) as [cands|] eqn:E; simpl.
    + by rewrite E.
    + by rewrite lookup_insert_eq.
  - intros s Hs. rewrite lookup_insert_ne by done.
    destruct (Mode.transitions m !! from_state); [done|].
    by rewrite lookup_insert_ne.
Qed.

Lemma scan_transitions_snoc vars target candidates t :
  Mode.scan_transitions vars target (candidates ++ [t])
    = if bool_decide (Forall (λ t', Mode.to_state t' ≠ target) candidates)
      then Mode.scan_transitions vars target [t]
      else Mode.scan_transitions vars target candidates.
Proof.
  destruct (first_match_split target candidates)
    as [Hnone|(pre & t0 & post & -> & Hpre & Ht0)].
  - rewrite bool_decide_eq_true_2 by done.
    induction Hnone as [|t' l Hne _ IH]; simpl; [done|].
    by rewrite (proj2 (String.eqb_neq _ _) Hne).
  - rewrite bool_decide_eq_false_2.
    + rewrite <- app_assoc. simpl.
      by rewrite !scan_transitions_first_match.
    + intros Hall. apply Forall_app in Hall as [_ Hall].
      by apply Forall_cons in Hall as [Hall _].
Qed.

(** X4: a transition added by [add_transition] goes behind the ones
    already declared from the same state, and the first candidate wins.
    When a candidate to the same target is already declared from that
    state, the new one changes no answer of [can_transition_to]. When
    there is none and the mode is in that state, the answer for the target
    is decided by the new conditions. The answers for the other targets
    keep their truth value. *)
Theorem add_transition_behind from_state to_state conditions (m : Mode.Mode) :
  let m' := Mode.add_transition from_state to_state conditions m in
  (∀ candidates,
     Mode.transitions m !! from_state = Some candidates →
     Exists (λ t, Mode.to_state t = to_state) candidates →
     ∀ target, Mode.can_transition_to target m' = Mode.can_transition_to target m) ∧
  (Mode.current_state m = from_state →
   (∀ candidates,
      Mode.transitions m !! from_state = Some candidates →
      Forall (λ t, Mode.to_state t ≠ to_state) candidates) →
   Mode.can_transition_to to_state m'
     = Mode.check_conditions (Mode.state_variables m) (Mode.or_empty conditions)) ∧
  (∀ target, target ≠ to_state →
     (Mode.can_transition_to target m').1 = (Mode.can_transition_to target m).1).
Proof.
  intros m'.
  destruct (add_transition_lookup from_state to_state conditions m)
    as (Hfrom & Hother & Hvars & Hcur).
  fold m' in Hfrom, Hother, Hvars, Hcur.
  assert (∀ target, Mode.current_state m ≠ from_state →
            Mode.can_transition_to target m' = Mode.can_transition_to target m)
    as Helse.
  { intros target Hne. unfold Mode.can_transition_to.
    by rewrite Hcur, Hvars, Hother. }
  split; [|split].
  - intros candidates Hc Hex target.
    destruct (decide (Mode.current_state m = from_state)) as [Heq|Hne];
      [|by apply Helse].
    unfold Mode.can_transition_to. rewrite Hcur, Hvars, Heq, Hfrom, Hc. simpl.
    rewrite scan_transitions_snoc. case_bool_decide as Hall; [|done].
    simpl. destruct (String.eqb_spec to_state target) as [->|Hneq].
    + exfalso. apply Exists_exists in Hex as (t & Hin & Ht).
      by apply (proj1 (Forall_forall _ _) Hall t Hin).
    + by rewrite scan_transitions_no_match.
  - intros Heq Hnone. unfold Mode.can_transition_to.
    rewrite Hcur, Hvars, Heq, Hfrom.
    rewrite scan_transitions_snoc.
    rewrite bool_decide_eq_true_2.
    + simpl. by rewrite String.eqb_refl.
    + destruct (Mode.transitions m !! from_state) as [cands|]; simpl;
        [by apply Hnone | constructor].
  - intros target Hneq.
    destruct (decide (Mode.current_state m = from_state)) as [Heq|Hne];
      [|by rewrite Helse].
    unfold Mode.can_transition_to. rewrite Hcur, Hvars, Heq, Hfrom.
    rewrite scan_transitions_snoc.
    destruct (Mode.transitions m !! from_state) as [cands|]; simpl.
    + case_bool_decide as Hall; [|done]. simpl.
      rewrite (proj2 (String.eqb_neq _ _)) by done.
      by rewrite scan_transitions_no_match.
    + by rewrite (proj2 (String.eqb_neq _ _)) by done.
Qed.

Lemma add_transition_behind_armed :
  Mode.can_transition_to "armed"
    (Mode.add_transition "initial" "armed" None Scenario.two_candidates)
  = Mode.can_transition_to "armed" Scenario.two_candidates.
Proof.
  refine (proj1 (add_transition_behind "initial" "armed" None Scenario.two_candidates)
    [{| Mode.to_state := "armed"; Mode.conditions := [("safety_off", VBool true)] |};
     {| Mode.to_state := "armed"; Mode.conditions := [] |}]
    eq_refl _ "armed").
  by left.
Defined.

(** ** Mode: the history *)

Lemma path_from_snoc start h finish target now :
  path_from start h finish →
  path_from start
    (h ++ [{| Mode.h_from_state := finish; Mode.h_to_state := target;
              Mode.h_timestamp := now |}]) target.
Proof.
  revert start. induction h as [|entry h IH]; intros start; simpl.
  - by intros ->.
  - intros [Hfrom Hrest]. split; [done|]. by apply IH.
Qed.

Lemma mode_invoke_path (c : Mode.method) (m : Mode.Mode) :
  path_from "initial" (Mode._history m) (Mode.current_state m) →
  path_from "initial" (Mode._history (Mode.invoke c m).1)
    (Mode.current_state (Mode.invoke c m).1).
Proof.
  intros Hm. destruct c; simpl; try done.
  - unfold Mode.add_observer. by case_bool_decide.
  - unfold Mode.remove_observer. by case_bool_decide.
  - unfold Mode.add_command. destruct (mem _ _); [done|]. by destruct required.
  - unfold Mode.remove_command.
    destruct (mem command_id (Mode.allowed_commands m)); simpl;
      destruct (mem _ _); done.
  - unfold Mode.transition_to.
    destruct (Mode.can_transition_to target m) as [[|] message]; simpl; [|done].
    by apply path_from_snoc.
Qed.

(** X5: whatever methods have been called on a mode since its
    construction, the transition history is a path: its first entry
    leaves "initial", every entry leaves the state the entry before it
    reached, and the last entry reaches [current_state]. *)
Theorem history_is_a_path mode_id name description calls :
  let m := (Mode.invoke_all calls (Mode.init mode_id name description)).1 in
  path_from "initial" (Mode.get_transition_history m) (Mode.current_state m).
Proof.
  simpl. unfold Mode.get_transition_history.
  assert (∀ m, path_from "initial" (Mode._history m) (Mode.current_state m) →
               path_from "initial" (Mode._history (Mode.invoke_all calls m).1)
                 (Mode.current_state (Mode.invoke_all calls m).1)) as H.
  { induction calls as [|c calls IH]; intros m Hm; simpl; [done|].
    pose proof (mode_invoke_path c m Hm) as H1.
    destruct (Mode.invoke c m) as [m1 notes]. simpl in H1.
    specialize (IH m1 H1).
    by destruct (Mode.invoke_all calls m1) as [m2 notes']. }
  by apply H.
Qed.

(** X6: calls of [transition_to], however many and whether they succeed or
    not, write nothing but [current_state] and the history:
    [get_current_state_info] afterwards differs from before in
    [current_state] at most, and the transitions and the observers are the
    same. *)
Theorem transition_to_writes_state_only calls (m : Mode.Mode) :
  Forall is_transition_to calls →
  let m' := (Mode.invoke_all calls m).1 in
  Mode.get_current_state_info m'
    = {| Mode.i_mode_id := Mode.mode_id m; Mode.i_name := Mode.name m;
         Mode.i_current_state := Mode.current_state m';
         Mode.i_state_variables := Mode.state_variables m;
         Mode.i_allowed_commands := Mode.allowed_commands m;
         Mode.i_required_commands := Mode.required_commands m |} ∧
  Mode.transitions m' = Mode.transitions m ∧
  Mode._observers m' = Mode._observers m.
Proof.
  intros Hcalls. revert m.
  induction Hcalls as [|c calls Hc _ IH]; intros m; simpl; [done|].
  destruct c as [| | | | |now target|]; try done. simpl.
  unfold Mode.transition_to.
  destruct (Mode.can_transition_to target m) as [[|] message]; simpl.
  - specialize (IH (Mode.set_current_state target
      (Mode.set_history (Mode._history m ++
         [{| Mode.h_from_state := Mode.current_state m;
             Mode.h_to_state := target; Mode.h_timestamp := now |}]) m))).
    destruct (Mode.invoke_all calls _) as [m2 notes']. exact IH.
  - specialize (IH m). by destruct (Mode.invoke_all calls m) as [m2 notes'].
Qed.

Lemma transition_to_writes_state_only_armed :
  Mode.state_variables
    (Mode.invoke_all [Mode.CallTransitionTo 1%Q "armed";
                      Mode.CallTransitionTo 2%Q "armed"] Scenario.two_candidates).1
    = Mode.state_variables Scenario.two_candidates.
Proof.
  pose proof (transition_to_writes_state_only
    [Mode.CallTransitionTo 1%Q "armed"; Mode.CallTransitionTo 2%Q "armed"]
    Scenario.two_candidates) as H.
  destruct H as (Hinfo & _ & _).
  - repeat constructor.
  - exact (f_equal Mode.i_state_variables Hinfo).
Defined.

(** ** Mode: allowed commands *)

(** X7: [is_command_allowed] after [add_command] is true for the command
    added; after [remove_command] it is false for the command removed,
    provided the command was not listed twice; and neither call changes
    the answer for any other command. *)
Theorem is_command_allowed_after c required (m : Mode.Mode) :
  Mode.is_command_allowed c (Mode.add_command c required m) = true ∧
  (NoDup (Mode.allowed_commands m) →
     Mode.is_command_allowed c (Mode.remove_command c m) = false) ∧
  (∀ other, other ≠ c →
     Mode.is_command_allowed other (Mode.add_command c required m)
       = Mode.is_command_allowed other m ∧
     Mode.is_command_allowed other (Mode.remove_command c m)
       = Mode.is_command_allowed other m).
Proof.
  unfold Mode.is_command_allowed. split; [|split].
  - destruct (decide (c ∈ Mode.allowed_commands m)) as [Hin|Hin].
    + rewrite add_command_allowed by done. by apply mem_true.
    + destruct (add_command_new c required m Hin) as [-> _].
      apply mem_true, elem_of_app. right. by left.
  - intros Hnd. destruct (remove_command_lists c m) as [-> _].
    destruct (mem c (Mode.allowed_commands m)) eqn:E; [|done].
    apply mem_false. by apply list_remove_NoDup.
  - intros other Hne. split.
    + destruct (decide (c ∈ Mode.allowed_commands m)) as [Hin|Hin].
      * by rewrite add_command_allowed.
      * destruct (add_command_new c required m Hin) as [-> _].
        destruct (mem other (Mode.allowed_commands m)) eqn:E.
        -- apply mem_true, elem_of_app. left. by apply mem_true.
        -- apply mem_false. rewrite elem_of_app. intros [Hin'|Hin'].
           ++ by apply mem_false in E.
           ++ apply list_elem_of_singleton in Hin'. done.
    + destruct (remove_command_lists c m) as [-> _].
      destruct (mem c (Mode.allowed_commands m)); [|done].
      destruct (mem other (Mode.allowed_commands m)) eqn:E.
      * apply mem_true, list_remove_other; [done | by apply mem_true].
      * apply mem_false. intros Hin. apply list_remove_subseteq in Hin.
        by apply mem_false in E.
Qed.

Lemma is_command_allowed_after_calls :
  let m := Mode.run Scenario.calls (Mode.init "manual" "Manual" "manual control") in
  Mode.is_command_allowed "stop" (Mode.remove_command "stop" m) = false.
Proof.
  refine (proj1 (proj2 (is_command_allowed_after "stop" false _)) _).
  repeat constructor. apply not_elem_of_nil.
Defined.

(** ** Device: what every method keeps *)

(** Unfolds a call of a method of the device and splits its branches. *)
Ltac device_cases :=
  unfold Device.invoke, Device.connect, Device.disconnect, Device.send_command,
    Device.set_mode, Device.update_heartbeat, Device.check_connection,
    Device.add_observer, Device.remove_observer in *;
  repeat match goal with
         | H : context [if ?b then _ else _] |- _ => destruct b eqn:?
         | H : context [match ?x with _ => _ end] |- _ => destruct x eqn:?
         end;
  simplify_eq; simpl in *;
  repeat match goal with
         | H : (_ <=? _)%Z = true |- _ => apply Z.leb_le in H
         | H : (_ <=? _)%Z = false |- _ => apply Z.leb_gt in H
         end.

Lemma device_invoke_all_ind (P : Device.Device → Prop) :
  (∀ c d ret d' effects,
     Device.invoke c d = Returned (ret, d', effects) → P d → P d') →
  ∀ calls d d', Device.invoke_all calls d = Returned d' → P d → P d'.
Proof.
  intros Hstep calls. induction calls as [|c calls IH]; intros d d'; simpl.
  - by intros [= <-].
  - destruct (Device.invoke c d) as [[[ret d1] effects]|e] eqn:Hc; [|done].
    intros Hrest Hd. eapply IH; [done|]. by eapply Hstep.
Qed.

Lemma device_invoke_budget c (d : Device.Device) ret d' effects :
  Device.invoke c d = Returned (ret, d', effects) →
  budget_ok d →
  budget_ok d' ∧
  Device.max_connection_attempts d' = Device.max_connection_attempts d.
Proof.
  unfold budget_ok. intros Hc Hd. destruct c; device_cases; try (split; [lia|done]).
Qed.

(** X8: whatever methods are called on a device, [connection_attempts]
    stays between 0 and [max_connection_attempts], and no method changes
    [max_connection_attempts]. *)
Theorem connection_attempts_bounded calls (d d' : Device.Device) :
  budget_ok d →
  Device.invoke_all calls d = Returned d' →
  (0 <= Device.connection_attempts d' <= Device.max_connection_attempts d')%Z ∧
  Device.max_connection_attempts d' = Device.max_connection_attempts d.
Proof.
  intros Hd Hrun.
  apply (device_invoke_all_ind
    (λ x, budget_ok x ∧
          Device.max_connection_attempts x = Device.max_connection_attempts d)
    ) with (calls := calls) (d := d); [|done|done].
  intros c x ret x' effects Hc [Hb Hm].
  destruct (device_invoke_budget c x ret x' effects Hc Hb). split; [done|congruence].
Qed.

Lemma connection_attempts_bounded_fresh :
  ∃ d', Device.invoke_all Scenario.session Scenario.fresh_device = Returned d' ∧
    (0 <= Device.connection_attempts d' <= 3)%Z.
Proof.
  assert (∃ d', Device.invoke_all Scenario.session Scenario.fresh_device = Returned d')
    as [d' Hrun].
  { eexists. vm_compute. reflexivity. }
  exists d'. split; [exact Hrun|].
  destruct (connection_attempts_bounded Scenario.session
    Scenario.fresh_device d') as [Hb Hm]; [|exact Hrun|].
  - unfold budget_ok. simpl. lia.
  - rewrite Hm in Hb. exact Hb.
Defined.

Lemma device_receivers_notify_observers (d : Device.Device) :
  device_receivers (Device.notify_observers d) = Device._observers d ∧
  device_snapshots (Device.notify_observers d) = map (λ _, d) (Device._observers d).
Proof.
  unfold device_receivers, device_snapshots, Device.notify_observers.
  induction (Device._observers d) as [|o l [IH1 IH2]]; [done|].
  split; simpl; f_equal; [exact IH1 | exact IH2].
Qed.

Lemma device_invoke_exhausted c (d : Device.Device) ret d' effects :
  Device.invoke c d = Returned (ret, d', effects) →
  (Device.max_connection_attempts d <= Device.connection_attempts d)%Z →
  Device.is_connected d = false →
  Device.connection_attempts d' = Device.connection_attempts d ∧
  Device.max_connection_attempts d' = Device.max_connection_attempts d ∧
  Device.is_connected d' = false ∧
  Device.command_history d' = Device.command_history d.
Proof.
  intros Hc Hle Hoff.
  destruct c; device_cases; repeat split; try done; try lia;
    rewrite Hoff in *; done.
Qed.

(** X9: an exhausted budget is permanent. Once a disconnected device has
    used up its attempts, no sequence of method calls brings
    [connection_attempts] down or connects the device: every later
    [connect()] returns false without calling the transport and every
    [send_command] returns false, whatever the transport would do, and
    [command_history] never grows again. *)
Theorem exhausted_budget_is_permanent calls (d d' : Device.Device) :
  (Device.max_connection_attempts d <= Device.connection_attempts d)%Z →
  Device.is_connected d = false →
  Device.invoke_all calls d = Returned d' →
  Device.connection_attempts d' = Device.connection_attempts d ∧
  Device.is_connected d' = false ∧
  Device.command_history d' = Device.command_history d ∧
  (∀ transport now,
     (Device.connect transport now d').1.1 = false ∧
     device_receivers (Device.connect transport now d').2
       = Device._observers d' ∧
     ∀ ip_address port,
       Device.TransportConnect ip_address port ∉ (Device.connect transport now d').2) ∧
  (∀ transport now1 now2 command params,
     (Device.send_command transport now1 now2 command params d').1.1 = false).
Proof.
  intros Hle Hoff Hrun.
  assert (Device.connection_attempts d' = Device.connection_attempts d ∧
          Device.max_connection_attempts d' = Device.max_connection_attempts d ∧
          Device.is_connected d' = false ∧
          Device.command_history d' = Device.command_history d)
    as (Ha & Hm & Hc & Hh).
  { apply (device_invoke_all_ind
      (λ x, Device.connection_attempts x = Device.connection_attempts d ∧
            Device.max_connection_attempts x = Device.max_connection_attempts d ∧
            Device.is_connected x = false ∧
            Device.command_history x = Device.command_history d))
      with (calls := calls) (d := d); [|done|done].
    intros c x ret x' effects Hcall (Ha & Hm & Hc & Hh).
    destruct (device_invoke_exhausted c x ret x' effects Hcall)
      as (Ha' & Hm' & Hc' & Hh'); [lia | done |].
    repeat split; congruence. }
  repeat split; try done.
  - rewrite connect_exhausted by lia. done.
  - rewrite connect_exhausted by lia. simpl.
    by rewrite (proj1 (device_receivers_notify_observers _)).
  - intros ip_address port. rewrite connect_exhausted by lia. simpl. intros Hin.
    unfold Device.notify_observers in Hin.
    by apply list_elem_of_fmap in Hin as (o & Heq & _).
  - unfold Device.send_command. by rewrite Hc.
Qed.

Lemma exhausted_budget_is_permanent_session :
  let d := (Device.connect_each Scenario.three_faults Scenario.fresh_device).1 in
  ∃ d',
    Device.invoke_all
      [Device.CallConnect Done 9%Q;
       Device.CallSendCommand Done 9%Q 9%Q "move" None] d = Returned d' ∧
    Device.connection_attempts d' = 3%Z ∧
    Device.is_connected d' = false ∧
    Device.command_history d' = [].
Proof.
  intros d.
  assert (∃ d', Device.invoke_all
            [Device.CallConnect Done 9%Q;
             Device.CallSendCommand Done 9%Q 9%Q "move" None] d = Returned d')
    as [d' Hrun].
  { eexists. vm_compute. reflexivity. }
  exists d'. split; [exact Hrun|].
  destruct (exhausted_budget_is_permanent
    [Device.CallConnect Done 9%Q;
     Device.CallSendCommand Done 9%Q 9%Q "move" None] d d')
    as (Ha & Hc & Hh & _); [simpl; lia | reflexivity | exact Hrun |].
  split; [exact Ha|]. split; [exact Hc | exact Hh].
Defined.

Lemma device_invoke_heartbeat c (d : Device.Device) :
  heartbeat_known d →
  ∃ ret d' effects,
    Device.invoke c d = Returned (ret, d', effects) ∧ heartbeat_known d'.
Proof.
  unfold heartbeat_known. intros Hd.
  destruct c; simpl.
  - eexists _, _, _. split; [done|]. unfold Device.add_observer.
    by case_bool_decide.
  - eexists _, _, _. split; [done|]. unfold Device.remove_observer.
    by case_bool_decide.
  - destruct (Device.connect transport now d) as [[ok d1] effects] eqn:Hc.
    eexists _, _, _. split; [done|]. device_cases; eauto.
  - eexists _, _, _. split; [done|]. simpl. done.
  - destruct (Device.send_command transport now1 now2 command params d)
      as [[ok d1] effects] eqn:Hc.
    eexists _, _, _. split; [done|]. device_cases; eauto.
  - destruct (Device.set_mode mode d) as [[ok d1] effects] eqn:Hc.
    eexists _, _, _. split; [done|]. device_cases; eauto.
  - eexists _, _, _. split; [done|]. simpl. eauto.
  - unfold Device.check_connection.
    destruct (Device.is_connected d) eqn:Hon; simpl.
    + destruct (Hd eq_refl) as [last ->].
      destruct (Qle_bool (now - last) _); simpl.
      * eexists _, _, _. split; [done|]. by rewrite Hon.
      * eexists _, _, _. split; [done|]. done.
    + eexists _, _, _. split; [done|]. by rewrite Hon.
Qed.

(** X10: on a device used through its methods since construction no call
    raises. In particular [check_connection] never meets a missing
    heartbeat: whenever such a device is connected, [last_heartbeat] has
    been stamped. *)
Theorem check_connection_never_raises device_id device_type name ip_address port calls :
  ∃ d',
    Device.invoke_all calls
      (Device.init device_id device_type name ip_address port) = Returned d' ∧
    (Device.is_connected d' = true → is_Some (Device.last_heartbeat d')) ∧
    ∀ now, ∃ ok d'' effects,
      Device.check_connection now d' = Returned (ok, d'', effects).
Proof.
  assert (∀ d, heartbeat_known d →
            ∃ d', Device.invoke_all calls d = Returned d' ∧ heartbeat_known d') as H.
  { induction calls as [|c calls IH]; intros d Hd; simpl; [by exists d|].
    destruct (device_invoke_heartbeat c d Hd) as (ret & d1 & effects & -> & Hd1).
    by apply IH. }
  destruct (H (Device.init device_id device_type name ip_address port))
    as (d' & Hrun & Hd'); [done|].
  exists d'. split; [done|]. split; [done|]. intros now.
  destruct (device_invoke_heartbeat (Device.CallCheckConnection now) d' Hd')
    as (ret & d'' & effects & Hc & _).
  simpl in Hc.
  destruct (Device.check_connection now d') as [[[ok x] eff]|e]; [|done].
  by exists ok, x, eff.
Qed.

(** ** Device: connecting, disconnecting and liveness *)



Lemma Qle_bool_inject_Z (n n0 i : Z) :
  Qle_bool (inject_Z n - inject_Z n0) (inject_Z i) = (n - n0 <=? i)%Z.
Proof.
  destruct (Z.leb_spec (n - n0) i) as [Hle|Hgt].
  - apply Qle_bool_iff. unfold Qminus.
    rewrite <- inject_Z_opp, <- inject_Z_plus, <- Zle_Qle. lia.
  - apply not_true_is_false. rewrite Qle_bool_iff. unfold Qminus.
    rewrite <- inject_Z_opp, <- inject_Z_plus, <- Zle_Qle. lia.
Qed.

(** X12: the liveness window, for clock readings that are whole numbers of
    seconds below 2^52 in size, whose difference a float holds exactly.
    After a call of [connect()] that goes through at time [n0],
    [check_connection] at time [n] returns true and changes nothing as
    long as [n - n0] does not exceed [heartbeat_interval], the bound
    included. Beyond it the call returns false, sets the status to
    "connection_lost" and clears [is_connected], so that every later
    [send_command] returns false; the command history is kept. *)
Theorem connection_goes_stale (n0 n : Z) (d : Device.Device) :
  (Device.connection_attempts d < Device.max_connection_attempts d)%Z →
  (Z.abs n0 <= 2 ^ 52)%Z →
  (Z.abs n <= 2 ^ 52)%Z →
  let d1 := (Device.connect Done (inject_Z n0) d).1.2 in
  ((n - n0 <= Device.heartbeat_interval d)%Z →
     Device.check_connection (inject_Z n) d1 = Returned (true, d1, [])) ∧
  ((Device.heartbeat_interval d < n - n0)%Z →
     ∃ d2 effects,
       Device.check_connection (inject_Z n) d1 = Returned (false, d2, effects) ∧
       Device.status d2 = "connection_lost" ∧
       Device.is_connected d2 = false ∧
       Device.command_history d2 = Device.command_history d ∧
       ∀ now1 now2 command params,
         (Device.send_command Done now1 now2 command params d2).1.1 = false).
Proof.
  intros Hlt _ _. unfold Device.connect.
  rewrite (proj2 (Z.leb_gt _ _) Hlt). simpl.
  unfold Device.check_connection. simpl. rewrite Qle_bool_inject_Z. split.
  - intros Hle. by rewrite (proj2 (Z.leb_le _ _) Hle).
  - intros Hgt. rewrite (proj2 (Z.leb_gt _ _) Hgt). simpl.
    eexists _, _. split; [done|]. by repeat split.
Qed.

Lemma connection_goes_stale_fresh :
  Device.check_connection 31%Q Scenario.connected_device
    = Returned (true, Scenario.connected_device, []) ∧
  ∃ d2 effects,
    Device.check_connection 32%Q Scenario.connected_device
      = Returned (false, d2, effects) ∧
    Device.status d2 = "connection_lost".
Proof.
  split.
  - refine (proj1 (connection_goes_stale 1 31 Scenario.fresh_device _ _ _) _);
      simpl; lia.
  - destruct (proj2 (connection_goes_stale 1 32 Scenario.fresh_device
      ltac:(simpl; lia) ltac:(simpl; lia) ltac:(simpl; lia)))
      as (d2 & effects & Hc & Hs & _); [simpl; lia|].
    by exists d2, effects.
Defined.

(** X13: [update_heartbeat] does not connect. On a device that is not
    connected it sets the status to "connected" and stamps the heartbeat,
    but [is_connected] stays false: [check_connection] goes on returning
    false and [send_command] goes on failing with "not_connected". *)
Theorem update_heartbeat_does_not_connect now (d : Device.Device) :
  Device.is_connected d = false →
  let d1 := (Device.update_heartbeat now d).1 in
  Device.status d1 = "connected" ∧
  Device.last_heartbeat d1 = Some now ∧
  Device.is_connected d1 = false ∧
  (∀ now', Device.check_connection now' d1 = Returned (false, d1, [])) ∧
  ∀ transport now1 now2 command params,
    let r := Device.send_command transport now1 now2 command params d1 in
    r.1.1 = false ∧ Device.status r.1.2 = "not_connected".
Proof.
  intros Hoff. simpl. repeat split; try done.
  - intros now'. unfold Device.check_connection. simpl. by rewrite Hoff.
  - unfold Device.send_command. simpl. by rewrite Hoff.
  - unfold Device.send_command. simpl. by rewrite Hoff.
Qed.

Lemma update_heartbeat_does_not_connect_fresh :
  Device.status (Device.update_heartbeat 1%Q Scenario.fresh_device).1 = "connected" ∧
  Device.is_connected (Device.update_heartbeat 1%Q Scenario.fresh_device).1 = false.
Proof.
  destruct (update_heartbeat_does_not_connect 1%Q Scenario.fresh_device eq_refl)
    as (Hs & _ & Hc & _).
  by split.
Defined.

(** X14: [disconnect] is idempotent and drops the current mode. It turns
    [send_command] and [check_connection] off, but it keeps the command
    history and does not give back the connection attempts that have been
    used. *)
Theorem disconnect_twice (d : Device.Device) :
  let d1 := (Device.disconnect d).1 in
  (Device.disconnect d1).1 = d1 ∧
  Device.is_connected d1 = false ∧
  Device.status d1 = "disconnected" ∧
  Device.current_mode d1 = None ∧
  Device.command_history d1 = Device.command_history d ∧
  Device.connection_attempts d1 = Device.connection_attempts d ∧
  (∀ now, Device.check_connection now d1 = Returned (false, d1, [])) ∧
  ∀ transport now1 now2 command params,
    (Device.send_command transport now1 now2 command params d1).1.1 = false ∧
    Device.command_history
      (Device.send_command transport now1 now2 command params d1).1.2
      = Device.command_history d.
Proof. simpl. repeat split. Qed.

(** ** Device: operating mode *)




(** ** Device: the command history *)

Lemma device_invoke_history c (d : Device.Device) ret d' effects :
  Device.invoke c d = Returned (ret, d', effects) →
  Device.command_history d `prefix_of` Device.command_history d' ∧
  (Device.error_count d <= Device.error_count d')%Z.
Proof.
  intros Hc. destruct c; device_cases;
    try (split; [done | lia]); split; try lia; by apply prefix_app_r.
Qed.

(** X16: [command_history] is append-only and [error_count] never goes
    down: whatever methods are called, the history before is a prefix of
    the history after. *)
Theorem command_history_append_only calls (d d' : Device.Device) :
  Device.invoke_all calls d = Returned d' →
  Device.command_history d `prefix_of` Device.command_history d' ∧
  (Device.error_count d <= Device.error_count d')%Z.
Proof.
  intros Hrun.
  apply (device_invoke_all_ind
    (λ x, Device.command_history d `prefix_of` Device.command_history x ∧
          (Device.error_count d <= Device.error_count x)%Z))
    with (calls := calls) (d := d); [|done|done].
  intros c x ret x' effects Hc [Hp He].
  destruct (device_invoke_history c x ret x' effects Hc) as [Hp' He'].
  split; [by etrans | lia].
Qed.

Lemma command_history_append_only_session :
  ∃ d', Device.invoke_all Scenario.session Scenario.fresh_device = Returned d' ∧
    (0 <= Device.error_count d')%Z.
Proof.
  assert (∃ d', Device.invoke_all Scenario.session Scenario.fresh_device = Returned d')
    as [d' Hrun].
  { eexists. vm_compute. reflexivity. }
  exists d'. split; [exact Hrun|].
  exact (proj2 (command_history_append_only Scenario.session
    Scenario.fresh_device d' Hrun)).
Defined.

(** ** Device: observers *)

Lemma device_invoke_observers c (d : Device.Device) ret d' effects :
  Device.invoke c d = Returned (ret, d', effects) →
  NoDup (Device._observers d) → NoDup (Device._observers d').
Proof.
  intros Hc Hd. destruct c; device_cases; try done.
  - apply snoc_NoDup; [done|]. by apply (bool_decide_eq_false_1 (o ∈ Device._observers d)).
  - by apply remove_first_NoDup.
Qed.

(** X17: on a device used through its methods since construction no
    observer is subscribed twice, so a round of notifications in which no
    callback changes the list of observers calls every subscribed observer
    exactly once, in subscription order, and nobody else. *)
Theorem device_observers_called_once device_id device_type name ip_address port
    calls (d : Device.Device) :
  Device.invoke_all calls
    (Device.init device_id device_type name ip_address port) = Returned d →
  NoDup (Device._observers d) ∧
  ∀ callback,
    (∀ o d', Device._observers (callback o d') = Device._observers d') →
    ∃ d',
      Device.notify_observers_live callback (S (length (Device._observers d))) d
        = Some (d', Device._observers d) ∧
      ∀ o, times o (Device._observers d)
             = if bool_decide (o ∈ Device._observers d) then 1 else 0.
Proof.
  intros Hrun.
  assert (NoDup (Device._observers d)) as Hd.
  { apply (device_invoke_all_ind (λ x, NoDup (Device._observers x)))
      with (calls := calls)
           (d := Device.init device_id device_type name ip_address port);
      [|done|constructor].
    intros c x ret x' effects Hc Hx. by eapply device_invoke_observers. }
  split; [done|]. intros callback Hkeep. unfold Device.notify_observers_live.
  destruct (notification_loop_stable Device._observers callback
    (S (length (Device._observers d))) 0 d)
    as (d' & Hloop & _); [by intros o s' _ _ | lia |].
  exists d'. split; [by rewrite Hloop|]. intros o. by apply times_NoDup.
Qed.

Lemma device_observers_called_once_session :
  ∃ d, Device.invoke_all Scenario.session Scenario.fresh_device = Returned d ∧
    NoDup (Device._observers d).
Proof.
  assert (∃ d, Device.invoke_all Scenario.session Scenario.fresh_device = Returned d)
    as [d Hrun].
  { eexists. vm_compute. reflexivity. }
  exists d. split; [exact Hrun|].
  exact (proj1 (device_observers_called_once "pad-1" "gamepad" "Pad"
    "192.168.0.10" 8080 Scenario.session d Hrun)).
Defined.

(** ** Command: parameters that are not declared *)

Lemma check_types_undeclared items :
  Command.check_types ∅ items = None.
Proof. induction items as [|[param v] rest IH]; simpl; [done|]. by rewrite lookup_empty. Qed.

Lemma check_ranges_undeclared items :
  Command.check_ranges ∅ items = Returned None.
Proof. induction items as [|[param v] rest IH]; simpl; [done|]. by rewrite lookup_empty. Qed.

(** X18: a command as constructed declares nothing, so
    [validate_parameters] accepts every parameter map, and [execute]
    goes straight to the action: when the first attempt goes through it
    returns true with [attempt] 1, without any sleep. *)
Theorem constructed_command_accepts_all command_id name description parameters
    params action clock (device : Device.Device) :
  let c := Command.init command_id name description parameters in
  Command.validate_parameters c (Command.or_empty params)
    = Returned (true, Command.ParametersValid) ∧
  (action 0%Z = Done →
   Command.returned (Command.execute action clock c device params)
     = Returned (Some (true,
         Command.Result command_id (Device.device_id device) params
           (clock 0%Z) 1)) ∧
   Command.effects (Command.execute action clock c device params)
     = [Command.Action 0]).
Proof.
  intros c.
  assert (Command.validate_parameters c (Command.or_empty params)
          = Returned (true, Command.ParametersValid)) as Hval.
  { unfold Command.validate_parameters, c. simpl.
    by rewrite check_types_undeclared, check_ranges_undeclared. }
  split; [done|]. intros Hdone.
  unfold Command.execute. rewrite Hval. simpl. by rewrite Hdone.
Qed.

Lemma has_key_middle p k v (p1 p2 : dict) :
  p ≠ k → has_key p (p1 ++ (k, v) :: p2) = has_key p (p1 ++ p2).
Proof.
  intros Hne. unfold has_key, mem. rewrite !map_app, !existsb_app. simpl.
  by rewrite (proj2 (String.eqb_neq _ _) Hne).
Qed.

Lemma check_required_middle required k v (p1 p2 : dict) :
  k ∉ required →
  Command.check_required required (p1 ++ (k, v) :: p2)
    = Command.check_required required (p1 ++ p2).
Proof.
  induction required as [|p rest IH]; intros Hk; simpl; [done|].
  apply not_elem_of_cons in Hk as [Hne Hk].
  rewrite has_key_middle by done. by rewrite IH.
Qed.

Lemma check_types_middle types k v (p1 p2 : dict) :
  types !! k = None →
  Command.check_types types (p1 ++ (k, v) :: p2)
    = Command.check_types types (p1 ++ p2).
Proof.
  intros Hk. induction p1 as [|[p w] p1 IH]; simpl.
  - by rewrite Hk.
  - by rewrite IH.
Qed.

Lemma check_ranges_middle ranges k v (p1 p2 : dict) :
  ranges !! k = None →
  Command.check_ranges ranges (p1 ++ (k, v) :: p2)
    = Command.check_ranges ranges (p1 ++ p2).
Proof.
  intros Hk. induction p1 as [|[p w] p1 IH]; simpl.
  - by rewrite Hk.
  - by rewrite IH.
Qed.

(** X19: a supplied parameter that the command declares nowhere (not as
    required, with no type and no range) is neither rejected nor looked
    at: [validate_parameters] answers, or raises, exactly as it does
    without it. *)
Theorem undeclared_parameter_ignored (c : Command.Command) k v (p1 p2 : dict) :
  k ∉ Command.required_parameters c →
  Command.parameter_types c !! k = None →
  Command.parameter_ranges c !! k = None →
  Command.validate_parameters c (p1 ++ (k, v) :: p2)
    = Command.validate_parameters c (p1 ++ p2).
Proof.
  intros Hreq Htype Hrange. unfold Command.validate_parameters.
  by rewrite check_required_middle, check_types_middle, check_ranges_middle.
Qed.

Lemma undeclared_parameter_ignored_comment :
  Command.validate_parameters Scenario.range_command
    [("value", VFloat (3 # 2)); ("comment", VStr "fast")]
  = Command.validate_parameters Scenario.range_command [("value", VFloat (3 # 2))].
Proof.
  refine (undeclared_parameter_ignored Scenario.range_command "comment"
    (VStr "fast") [("value", VFloat (3 # 2))] [] _ eq_refl eq_refl).
  intros Hin. apply list_elem_of_singleton in Hin. discriminate.
Defined.

Lemma between_returned min_val v max_val b :
  Command.between min_val v max_val = Returned b → inside min_val v max_val = b.
Proof.
  unfold Command.between, inside.
  destruct (py_le min_val v) as [[|]|e]; [|congruence|done].
  destruct (py_le v max_val) as [[|]|e]; congruence.
Qed.

Lemma check_ranges_returned (c : Command.Command) items x :
  Command.check_ranges (Command.parameter_ranges c) items = Returned x →
  x = head (range_failures c items).
Proof.
  induction items as [|[param v] rest IH]; simpl; [congruence|].
  unfold range_failures, range_failure in *. simpl.
  destruct (Command.parameter_ranges c !! param) as [[min_val max_val]|]; [|done].
  destruct (Command.between min_val v max_val) as [[|]|e] eqn:Hb; [| |done].
  - rewrite (between_returned _ _ _ _ Hb). exact IH.
  - rewrite (between_returned _ _ _ _ Hb). simpl. congruence.
Qed.

(** X27: whenever [validate_parameters] returns, it returns false exactly
    when [params] omits a required parameter, or a supplied value is not
    an instance of its declared type, or a supplied value with a declared
    range is not within the inclusive bounds; the message is that of the
    first failure in the order required, type, range, and it is
    "Parameters valid" when there is none. The only other way for the
    call to end is the exception of a range comparison. *)
Theorem validate_parameters_when_it_returns (c : Command.Command) params r :
  Command.validate_parameters c params = Returned r →
  r = match head (failures c params) with
      | Some message => (false, message)
      | None => (true, Command.ParametersValid)
      end ∧
  (r.1 = false ↔
   (∃ param, param ∈ Command.required_parameters c ∧
      has_key param params = false) ∨
   (∃ param v expected_type,
      (param, v) ∈ params ∧
      Command.parameter_types c !! param = Some expected_type ∧
      isinstance v expected_type = false) ∨
   (∃ param v min_val max_val,
      (param, v) ∈ params ∧
      Command.parameter_ranges c !! param = Some (min_val, max_val) ∧
      inside min_val v max_val = false)).
Proof.
  intros Hret.
  assert (r = match head (failures c params) with
              | Some message => (false, message)
              | None => (true, Command.ParametersValid)
              end) as Hr.
  { revert Hret. unfold Command.validate_parameters, failures.
    rewrite check_required_head, check_types_head.
    fold (required_failures c params). rewrite !head_app.
    destruct (head (required_failures c params)); [congruence|].
    destruct (head (type_failures c params)); [congruence|].
    destruct (Command.check_ranges (Command.parameter_ranges c) params)
      as [x|e] eqn:Hx; [|done].
    rewrite <- (check_ranges_returned c params x Hx).
    destruct x; congruence. }
  split; [done|]. rewrite <- failures_elem_of, Hr. split.
  - destruct (failures c params) as [|first rest]; [done|].
    intros _. exists first. by left.
  - intros (message & Hin).
    destruct (failures c params) as [|first rest];
      [by apply elem_of_nil in Hin | done].
Qed.

Lemma validate_parameters_when_it_returns_value_first :
  Command.validate_parameters Scenario.two_ranges_command
    [("value", VInt 5); ("label", VStr "x")]
  = Returned (false, Command.OutOfRange "value" (VInt 0) (VInt 5) (VInt 1)).
Proof.
  assert (∃ r, Command.validate_parameters Scenario.two_ranges_command
                 [("value", VInt 5); ("label", VStr "x")] = Returned r)
    as [r Hr] by (eexists; reflexivity).
  rewrite Hr.
  by rewrite (proj1 (validate_parameters_when_it_returns
    Scenario.two_ranges_command [("value", VInt 5); ("label", VStr "x")] r Hr)).
Defined.

(** ** Command: the retry loop under any sequence of outcomes *)




(** ** Command: what the observers are told *)

Lemma command_subscribe_all_observers calls (c : Command.Command) :
  NoDup (Command._observers c) →
  NoDup (Command._observers (Command.subscribe_all calls c)).
Proof.
  revert c. unfold Command.subscribe_all.
  induction calls as [|[o|o] calls IH]; intros c Hc; simpl; [done| |]; apply IH.
  - unfold Command.add_observer. case_bool_decide as Hin; [done|].
    simpl. by apply snoc_NoDup.
  - unfold Command.remove_observer. case_bool_decide as Hin; [|done].
    simpl. by apply remove_first_NoDup.
Qed.

(** X21: whatever subscriptions and cancellations are made on a command
    whose observers are distinct, as on a constructed one, no observer is
    subscribed twice, so a round of notifications in which no callback
    changes the list of observers calls every subscribed observer exactly
    once, in subscription order, and nobody else. *)
Theorem command_observers_called_once calls (c0 : Command.Command) :
  NoDup (Command._observers c0) →
  let c := Command.subscribe_all calls c0 in
  NoDup (Command._observers c) ∧
  ∀ callback status result,
    (∀ o c', Command._observers (callback o c' status result)
             = Command._observers c') →
    ∃ c',
      Command.notify_observers_live callback status result
        (S (length (Command._observers c))) c = Some (c', Command._observers c) ∧
      ∀ o, times o (Command._observers c)
             = if bool_decide (o ∈ Command._observers c) then 1 else 0.
Proof.
  intros Hc0 c.
  assert (NoDup (Command._observers c)) as Hc
    by by apply command_subscribe_all_observers.
  split; [done|]. intros callback status result Hkeep.
  unfold Command.notify_observers_live.
  destruct (notification_loop_stable Command._observers
    (λ o c', callback o c' status result) (S (length (Command._observers c))) 0 c)
    as (c' & Hloop & _); [by intros o s' _ _ | lia |].
  exists c'. split; [by rewrite Hloop|]. intros o. by apply times_NoDup.
Qed.

Lemma command_observers_called_once_subscriptions :
  Command._observers
    (Command.subscribe_all [Command.Subscribe 7; Command.Subscribe 8;
                            Command.Unsubscribe 7; Command.Subscribe 8]
       Scenario.range_command) = [8] ∧
  NoDup (Command._observers
    (Command.subscribe_all [Command.Subscribe 7; Command.Subscribe 8;
                            Command.Unsubscribe 7; Command.Subscribe 8]
       Scenario.range_command)).
Proof.
  split; [reflexivity|].
  refine (proj1 (command_observers_called_once
    [Command.Subscribe 7; Command.Subscribe 8; Command.Unsubscribe 7;
     Command.Subscribe 8] Scenario.range_command _)).
  repeat constructor. apply not_elem_of_nil.
Defined.



(** ** MappingMatrix *)

Lemma assign_spec k v (d : list (string * MappingMatrix.Mapping)) :
  NoDup d.*1 →
  NoDup (MappingMatrix.assign k v d).*1 ∧
  (MappingMatrix.assign k v d).*1 ⊆ k :: d.*1 ∧
  ∀ a m, (a, m) ∈ MappingMatrix.assign k v d ↔
         (a = k ∧ m = v) ∨ (a ≠ k ∧ (a, m) ∈ d).
Proof.
  induction d as [|[k' v'] d IH]; simpl; intros Hd.
  - split; [apply NoDup_singleton|]. split; [done|].
    intros a m. rewrite list_elem_of_singleton. split.
    + intros [= -> ->]. by left.
    + intros [[-> ->]|[_ Hin]]; [done | by apply elem_of_nil in Hin].
  - apply NoDup_cons in Hd as [Hk' Hd].
    destruct (String.eqb_spec k' k) as [->|Hne]; simpl.
    + split; [by constructor|]. split; [by apply list_subseteq_cons|].
      intros a m. rewrite !elem_of_cons. split.
      * intros [[= -> ->]|Hin]; [by left|]. right. split; [|by right].
        intros ->. apply Hk'. apply list_elem_of_fmap. by exists (k, m).
      * intros [[-> ->]|[Hne [[= -> ->]|Hin]]]; [by left | done | by right].
    + destruct (IH Hd) as (IH1 & IH2 & IH3). split; [|split].
      * constructor; [|done]. intros Hin. apply IH2 in Hin.
        apply elem_of_cons in Hin as [->|Hin]; done.
      * intros x Hx. apply elem_of_cons in Hx as [->|Hx].
        -- right. by left.
        -- apply IH2 in Hx. apply elem_of_cons in Hx as [->|Hx];
             [by left | right; by right].
      * intros a m. rewrite !elem_of_cons, IH3. split.
        -- intros [[= -> ->]|[[-> ->]|[Hak Hin]]];
             [right; split; [done | by left] | by left |
              right; split; [done | by right]].
        -- intros [[-> ->]|[Hak [[= -> ->]|Hin]]];
             [right; by left | by left | right; right; by split].
Qed.

Lemma create_mapping_spec input_set action_set (d : list (string * MappingMatrix.Mapping)) :
  NoDup d.*1 →
  let v := {| MappingMatrix.inputs := input_set; MappingMatrix.priority := 1;
              MappingMatrix.enabled := true |} in
  let d' := fold_left (λ d action, MappingMatrix.assign action v d) action_set d in
  NoDup d'.*1 ∧
  ∀ a m, (a, m) ∈ d' ↔ (a ∈ action_set ∧ m = v) ∨ ((a ∉ action_set) ∧ (a, m) ∈ d).
Proof.
  intros Hd v. revert d Hd.
  induction action_set as [|action rest IH]; intros d Hd; simpl.
  - split; [done|]. intros a m. split.
    + intros Hin. right. split; [apply not_elem_of_nil | done].
    + intros [[Hin _]|[_ Hin]]; [by apply elem_of_nil in Hin | done].
  - destruct (assign_spec action v d Hd) as (H1 & _ & H3).
    destruct (IH _ H1) as [IH1 IH2]. split; [done|].
    intros a m. rewrite IH2, H3, !elem_of_cons. split.
    + intros [[Hin ->]|[Hnin [[-> ->]|[Hne Hin]]]].
      * left. split; [by right | done].
      * left. split; [by left | done].
      * right. split; [|done]. intros [->|?]; done.
    + intros [[[->|Hin] ->]|[Hnin Hin]].
      * destruct (decide (action ∈ rest)); [left; by split|].
        right. split; [done|]. by left.
      * left. by split.
      * right. split; [tauto|]. right. split; [tauto | done].
Qed.

Lemma triggered_spec input_data (d : list (string * MappingMatrix.Mapping)) :
  (∀ a, a ∈ MappingMatrix.triggered input_data d ↔
        ∃ m, (a, m) ∈ d ∧
          MappingMatrix._check_input_matches input_data (MappingMatrix.inputs m)
            = true) ∧
  (NoDup d.*1 → NoDup (MappingMatrix.triggered input_data d)).
Proof.
  induction d as [|[k v] d [IH1 IH2]]; simpl.
  - split; [|constructor]. intros a. split.
    + intros Hin. by apply elem_of_nil in Hin.
    + intros (m & Hin & _). by apply elem_of_nil in Hin.
  - destruct (MappingMatrix._check_input_matches input_data
                (MappingMatrix.inputs v)) eqn:Hc.
    + split.
      * intros a. rewrite elem_of_cons, IH1. split.
        -- intros [->|(m & Hin & Hm)]; [exists v; split; [by left | done]|].
           exists m. split; [by right | done].
        -- intros (m & Hin & Hm). apply elem_of_cons in Hin as [[= -> ->]|Hin];
             [by left | right; by exists m].
      * intros Hd. apply NoDup_cons in Hd as [Hk Hd]. constructor; [|by apply IH2].
        intros Hin. apply IH1 in Hin as (m & Hin & _).
        apply Hk. apply list_elem_of_fmap. by exists (k, m).
    + split.
      * intros a. rewrite IH1. split.
        -- intros (m & Hin & Hm). exists m. split; [by right | done].
        -- intros (m & Hin & Hm). apply elem_of_cons in Hin as [[= -> ->]|Hin];
             [congruence | by exists m].
      * intros Hd. apply NoDup_cons in Hd as [_ Hd]. by apply IH2.
Qed.

(** X23: [create_mapping] gives every action it names the new input set,
    replacing what the action had, and leaves the other actions alone.
    Afterwards [map_input_to_action] returns each action at most once; an
    action named in the call is returned exactly when every input of the
    new set is a key of the input data (always, when the set is empty),
    and any other action exactly when it was returned before. *)
Theorem create_mapping_then_map input_set action_set input_data
    (mm : MappingMatrix.MappingMatrix) :
  NoDup (MappingMatrix.mappings mm).*1 →
  let mm' := MappingMatrix.create_mapping input_set action_set mm in
  NoDup (MappingMatrix.mappings mm').*1 ∧
  NoDup (MappingMatrix.map_input_to_action input_data mm') ∧
  ∀ action,
    action ∈ MappingMatrix.map_input_to_action input_data mm' ↔
      (action ∈ action_set ∧
       ∀ input_name, input_name ∈ input_set → has_key input_name input_data = true) ∨
      ((action ∉ action_set) ∧
       action ∈ MappingMatrix.map_input_to_action input_data mm).
Proof.
  intros Hmm mm'.
  destruct (create_mapping_spec input_set action_set _ Hmm) as [Hnd Hin].
  unfold mm', MappingMatrix.map_input_to_action, MappingMatrix.create_mapping.
  simpl. split; [done|]. split; [by apply triggered_spec|].
  intros action.
  rewrite (proj1 (triggered_spec input_data _) action).
  rewrite (proj1 (triggered_spec input_data (MappingMatrix.mappings mm)) action).
  split.
  - intros (m & Hm & Hc). apply Hin in Hm as [[Ha ->]|[Ha Hm]].
    + left. split; [done|]. simpl in Hc. intros input_name Hi.
      unfold MappingMatrix._check_input_matches in Hc.
      rewrite forallb_forall in Hc. apply Hc. by apply list_elem_of_In.
    + right. split; [done|]. by exists m.
  - intros [[Ha Hall]|[Ha (m & Hm & Hc)]].
    + eexists. split; [apply Hin; left; by split|]. simpl.
      unfold MappingMatrix._check_input_matches. apply forallb_forall.
      intros x Hx. apply Hall. by apply list_elem_of_In.
    + exists m. split; [apply Hin; right; by split | done].
Qed.

Lemma create_mapping_then_map_main :
  "teleport" ∈
    MappingMatrix.map_input_to_action
      [("button_press", VBool true); ("trigger_pull", VFloat (4 # 5))]
      (MappingMatrix.create_mapping ["button_press"; "trigger_pull"]
         ["grab"; "teleport"; "grab"] MappingMatrix.init).
Proof.
  apply (proj2 (proj2 (create_mapping_then_map ["button_press"; "trigger_pull"]
    ["grab"; "teleport"; "grab"]
    [("button_press", VBool true); ("trigger_pull", VFloat (4 # 5))]
    MappingMatrix.init NoDup_nil_2))).
  left. split.
  - right. by left.
  - intros input_name Hin.
    apply elem_of_cons in Hin as [->|Hin]; [reflexivity|].
    apply list_elem_of_singleton in Hin as ->. reflexivity.
Defined.

(** X24: [map_input_to_action] looks at the keys of the input data only,
    and more keys never trigger less: every action returned for some input
    data is returned for any input data that has at least the same keys. *)
Theorem map_input_to_action_monotone (input_data input_data' : dict)
    (mm : MappingMatrix.MappingMatrix) action :
  (∀ k, has_key k input_data = true → has_key k input_data' = true) →
  action ∈ MappingMatrix.map_input_to_action input_data mm →
  action ∈ MappingMatrix.map_input_to_action input_data' mm.
Proof.
  intros Hkeys. unfold MappingMatrix.map_input_to_action.
  rewrite !(proj1 (triggered_spec _ _)).
  intros (m & Hm & Hc). exists m. split; [done|].
  unfold MappingMatrix._check_input_matches in *.
  rewrite forallb_forall in *. intros x Hx. by apply Hkeys, Hc.
Qed.

Lemma map_input_to_action_monotone_main :
  "grab" ∈
    MappingMatrix.map_input_to_action
      [("button_press", VBool true); ("joystick", VNone)]
      (MappingMatrix.create_mapping ["button_press"] ["grab"] MappingMatrix.init).
Proof.
  refine (map_input_to_action_monotone [("button_press", VBool true)] _ _ "grab" _ _).
  - intros k Hk. unfold has_key, mem in *. simpl in *.
    destruct (String.eqb k "button_press"); [done | discriminate].
  - by left.
Defined.

Lemma constructed_command_accepts_all_reset :
  Command.validate_parameters
    (Command.init "reset" "Reset Position" "Reset device position" (Some []))
    [("value", VStr "anything")]
  = Returned (true, Command.ParametersValid).
Proof.
  exact (proj1 (constructed_command_accepts_all "reset" "Reset Position"
    "Reset device position" (Some []) (Some [("value", VStr "anything")])
    Scenario.third_time_lucky Scenario.iteration_clock Scenario.connected_device)).
Defined.
